(** * Subscriptions and dispatch of the actions destinations

    A shallow embedding of
    - [packages/destination-subscriptions/src/parse-fql.ts]: the FQL
      normalizer and parser ([normalize], [parse], [parseFqlFunction],
      [parseFql]);
    - the [Destination] class: [testAuthentication], [executeAction],
      [onSubscription], [onEvent], [getSubscriptions],
      [getDestinationSettings];
    - the [/test-credentials] handler of [packages/server/src/ops/server.ts];
    - the constructor of the [Destination] class and its [partnerAction];
    - the Friendbuy actions [trackCustomer] and [trackPurchase] with their
      helpers [getName] and [pickDefined].

    JavaScript values are modelled as follows.  Strings are [string]
    (sequences of one-byte characters, so the development speaks about
    ASCII sources).  [undefined] is [None] of an [option].  A [throw] is
    the [Throw] constructor of [Outcome].  Objects used as dictionaries
    are [gmap string _].  Numbers are kept abstract behind the
    [JsNumberOps] interface.  A promise is the tick at which it settles
    together with how it settles.

    Two collaborators have no source among the files embedded here and
    are modelled from the specification: the lexer [lex] and the
    evaluator [validate].  The dispatcher is parametric in [validate] and
    in [JSON.parse]. *)

From Stdlib Require Import ZArith Lia Bool Ascii.
From stdpp Require Import base option list strings gmap.

Local Open Scope string_scope.
Local Open Scope list_scope.
#[local] Set Warnings "-register-all".

(** ** Thrown values *)

Module AjvError.
(** One entry of an [AggregateAjvError]. *)
Record t := mk { path : string; message : string }.
End AjvError.

Module JsError.
(** An [Error] instance.  [items] is what iterating the object yields:
    the entries of an [AggregateAjvError], nothing for other errors. *)
Record t := mk {
  name : string;
  message : string;
  items : list AjvError.t
}.
End JsError.

Definition Error (msg : string) : JsError.t :=
  {| JsError.name := "Error"; JsError.message := msg; JsError.items := [] |}.

(** Reading property [prop] of [undefined] (the message is worded by the
    engine). *)
Definition TypeError_undefined (prop : string) : JsError.t :=
  {| JsError.name := "TypeError";
     JsError.message := "Cannot read property '" +:+ prop +:+ "' of undefined";
     JsError.items := [] |}.

Definition TypeError_null (prop : string) : JsError.t :=
  {| JsError.name := "TypeError";
     JsError.message := "Cannot read property '" +:+ prop +:+ "' of null";
     JsError.items := [] |}.

Inductive Outcome (A : Type) : Type :=
| Return (a : A)
| Throw (e : JsError.t).
Arguments Return {A} a.
Arguments Throw {A} e.

Global Instance Outcome_ret : MRet Outcome := fun _ a => Return a.
Global Instance Outcome_bind : MBind Outcome := fun _ _ f m =>
  match m with
  | Return a => f a
  | Throw e => Throw e
  end.

Definition returns {A} (o : Outcome A) : bool :=
  match o with Return _ => true | Throw _ => false end.

(** ** JavaScript numbers

    [Number(text)] and [String(n)] are the built-ins; the development is
    parametric in them. *)
Class JsNumberOps := {
  JsNumber : Type;
  Number : string -> JsNumber;
  NumberToString : JsNumber -> string;
  number_truthy : JsNumber -> bool;
  number_eqb : JsNumber -> JsNumber -> bool;
  number_ltb : JsNumber -> JsNumber -> bool
}.

(** ** String built-ins used by the parser *)

Module Str.

(** The double-quote character, code 34. *)
Definition quote : ascii := Ascii false true false false false true false false.
Definition star : ascii := "*"%char.
Definition dot : ascii := "."%char.

Definition ascii_eqb (a b : ascii) : bool := Ascii.eqb a b.

(** [s.startsWith(p)] *)
Definition startsWith (p s : string) : bool := String.prefix p s.

(** [s.endsWith(suffix)] *)
Fixpoint endsWith (suffix s : string) : bool :=
  String.eqb s suffix ||
  match s with
  | EmptyString => false
  | String _ rest => endsWith suffix rest
  end.

(** [s.slice(1)] *)
Definition slice1 (s : string) : string :=
  match s with
  | EmptyString => EmptyString
  | String _ rest => rest
  end.

(** [s.slice(0, -1)] *)
Fixpoint sliceInit (s : string) : string :=
  match s with
  | EmptyString => EmptyString
  | String c EmptyString => EmptyString
  | String c rest => String c (sliceInit rest)
  end.

(** [s.replace(/^Q/, '')], Q the double quote: drops a leading quote. *)
Definition dropLeadingQuote (s : string) : string :=
  match s with
  | String c rest => if ascii_eqb c quote then rest else s
  | EmptyString => EmptyString
  end.

(** [s.replace(/Q$/, '')], Q the double quote: drops a trailing quote. *)
Fixpoint dropTrailingQuote (s : string) : string :=
  match s with
  | EmptyString => EmptyString
  | String c EmptyString => if ascii_eqb c quote then EmptyString else s
  | String c rest => String c (dropTrailingQuote rest)
  end.

(** [s.split('.')[0]] *)
Fixpoint firstSegment (s : string) : string :=
  match s with
  | EmptyString => EmptyString
  | String c rest =>
      if ascii_eqb c dot then EmptyString else String c (firstSegment rest)
  end.

(** [Some rest] when [s] is [p] followed by [rest]. *)
Fixpoint dropPrefix (p s : string) : option string :=
  match p, s with
  | EmptyString, _ => Some s
  | String a p', String b s' =>
      if ascii_eqb a b then dropPrefix p' s' else None
  | String _ _, EmptyString => None
  end.

(** [/^(properties|traits)/.test(s)] *)
Definition hasBagPrefix (s : string) : bool :=
  startsWith "properties" s || startsWith "traits" s.

(** [s.replace(/^(properties|traits)\./, '')] *)
Definition stripBagPrefix (s : string) : string :=
  match dropPrefix "properties." s with
  | Some rest => rest
  | None =>
      match dropPrefix "traits." s with
      | Some rest => rest
      | None => s
      end
  end.

(** [s.replace('$.', '')]: the first occurrence only. *)
Fixpoint removeFirstDollarDot (s : string) : string :=
  match dropPrefix "$." s with
  | Some rest => rest
  | None =>
      match s with
      | EmptyString => EmptyString
      | String c rest => String c (removeFirstDollarDot rest)
      end
  end.

(** [list.includes(s)] *)
Definition includes (l : list string) (s : string) : bool :=
  existsb (String.eqb s) l.

End Str.

(** ** Tokens *)

Module TokenType.
(** The token kinds of the data model. *)
Inductive t :=
| Ident | String | Number | Operator | Conditional
| Dot | ParenLeft | ParenRight | Comma | EOS.

Global Instance eq_dec : EqDecision t.
Proof. solve_decision. Defined.

Definition eqb (a b : t) : bool :=
  match a, b with
  | Ident, Ident | String, String | Number, Number | Operator, Operator
  | Conditional, Conditional | Dot, Dot | ParenLeft, ParenLeft
  | ParenRight, ParenRight | Comma, Comma | EOS, EOS => true
  | _, _ => false
  end.
End TokenType.

Record Token := mkToken { type : TokenType.t; value : string }.

Global Instance Token_eq_dec : EqDecision Token.
Proof. solve_decision. Defined.

Definition eosToken : Token := {| type := TokenType.EOS; value := "eos" |}.

Definition hasType (t : Token) (ty : TokenType.t) : bool :=
  TokenType.eqb (type t) ty.

(** ** Lexer *)

(** Modelled from the spec: the scanner behind [lex] (section 4.1), one
    character at a time; [lex] below states what it recognizes. *)
Module Lexer.

Definition code (c : ascii) : N := N_of_ascii c.

Definition isSpace (c : ascii) : bool :=
  (code c =? 32)%N || (code c =? 9)%N || (code c =? 10)%N || (code c =? 13)%N.

Definition isDigit (c : ascii) : bool :=
  (48 <=? code c)%N && (code c <=? 57)%N.

Definition isLetter (c : ascii) : bool :=
  ((65 <=? code c)%N && (code c <=? 90)%N) ||
  ((97 <=? code c)%N && (code c <=? 122)%N).

Definition isIdentStart (c : ascii) : bool :=
  isLetter c || (code c =? 95)%N.

Definition isIdentChar (c : ascii) : bool :=
  isLetter c || isDigit c || (code c =? 95)%N.

Definition LexError (msg : string) : JsError.t :=
  {| JsError.name := "LexError"; JsError.message := msg; JsError.items := [] |}.

(** What the scanner has read of a token not yet complete. *)
Inductive Pending :=
| Idle
| InIdent (text : string)
| InNumber (text : string)
| InString (text : string) (escaped : bool)
| AfterBang
| AfterLess
| AfterGreater.

Definition snoc (text : string) (c : ascii) : string :=
  text +:+ String c EmptyString.

Definition wordToken (text : string) : Token :=
  if Str.includes ["and"; "or"] text
  then {| type := TokenType.Conditional; value := text |}
  else {| type := TokenType.Ident; value := text |}.

Definition operatorToken (text : string) : Token :=
  {| type := TokenType.Operator; value := text |}.

Definition flush (p : Pending) (out : list Token) : list Token :=
  match p with
  | InIdent text => out ++ [wordToken text]
  | InNumber text => out ++ [{| type := TokenType.Number; value := text |}]
  | AfterBang => out ++ [operatorToken "!"]
  | AfterLess => out ++ [operatorToken "<"]
  | AfterGreater => out ++ [operatorToken ">"]
  | Idle | InString _ _ => out
  end.

Definition startChar (c : ascii) (out : list Token)
  : Outcome (Pending * list Token) :=
  if isSpace c then Return (Idle, out)
  else if isIdentStart c then Return (InIdent (String c EmptyString), out)
  else if isDigit c then Return (InNumber (String c EmptyString), out)
  else if Str.ascii_eqb c Str.quote
    then Return (InString (String c EmptyString) false, out)
  else if Str.ascii_eqb c "("
    then Return (Idle, out ++ [{| type := TokenType.ParenLeft; value := "(" |}])
  else if Str.ascii_eqb c ")"
    then Return (Idle, out ++ [{| type := TokenType.ParenRight; value := ")" |}])
  else if Str.ascii_eqb c ","
    then Return (Idle, out ++ [{| type := TokenType.Comma; value := "," |}])
  else if Str.ascii_eqb c "."
    then Return (Idle, out ++ [{| type := TokenType.Dot; value := "." |}])
  else if Str.ascii_eqb c "=" then Return (Idle, out ++ [operatorToken "="])
  else if Str.ascii_eqb c "!" then Return (AfterBang, out)
  else if Str.ascii_eqb c "<" then Return (AfterLess, out)
  else if Str.ascii_eqb c ">" then Return (AfterGreater, out)
  else Throw (LexError ("unrecognized character " +:+ String c EmptyString)).

Definition lexStep (st : Pending * list Token) (c : ascii)
  : Outcome (Pending * list Token) :=
  let '(p, out) := st in
  match p with
  | Idle => startChar c out
  | InIdent text =>
      if isIdentChar c then Return (InIdent (snoc text c), out)
      else startChar c (flush p out)
  | InNumber text =>
      if isDigit c || Str.ascii_eqb c "." then Return (InNumber (snoc text c), out)
      else startChar c (flush p out)
  | InString text escaped =>
      if escaped then Return (InString (snoc text c) false, out)
      else if Str.ascii_eqb c "\" then Return (InString (snoc text c) true, out)
      else if Str.ascii_eqb c Str.quote
        then Return (Idle, out ++ [{| type := TokenType.String; value := snoc text c |}])
      else Return (InString (snoc text c) false, out)
  | AfterBang =>
      if Str.ascii_eqb c "=" then Return (Idle, out ++ [operatorToken "!="])
      else startChar c (flush p out)
  | AfterLess =>
      if Str.ascii_eqb c "=" then Return (Idle, out ++ [operatorToken "<="])
      else startChar c (flush p out)
  | AfterGreater =>
      if Str.ascii_eqb c "=" then Return (Idle, out ++ [operatorToken ">="])
      else startChar c (flush p out)
  end.

Fixpoint lexFrom (source : string) (st : Pending * list Token)
  : Outcome (list Token) :=
  match source with
  | EmptyString =>
      match fst st with
      | InString _ _ => Throw (LexError "unterminated string")
      | p => Return (flush p (snd st) ++ [eosToken])
      end
  | String c rest => st' ← lexStep st c; lexFrom rest st'
  end.

End Lexer.

(** Modelled from the spec: the lexer [lex] of the [@segment/fql] package,
    whose source is not among the files under verification.  It follows
    section 4.1: double-quoted string literals run to the matching
    unescaped quote and keep their quotes in the token value; numeric
    literals; identifiers of letters, digits and underscore, with a dot
    always lexed as a token of its own; the operators [=], [!=], [>],
    [<], [>=], [<=] and [!]; the conditionals [and] and [or];
    parentheses and comma; and a final end-of-stream token.  An
    unterminated string or an unrecognized character is a [LexError]. *)
Definition lex (source : string) : Outcome (list Token) :=
  Lexer.lexFrom source (Lexer.Idle, []).

(** [q s] is [s] between double quotes, as a string literal is written in
    an FQL source. *)
Definition q (s : string) : string :=
  String Str.quote (s +:+ String Str.quote EmptyString).

(** ** Normalizer *)

(** The test of the [if] inside [normalize]: the three [&&] operands are
    evaluated left to right, and reading [.type] of a missing token
    throws. *)
Definition isPathTriple (tokens : list Token) (index : nat) (current : Token)
  : Outcome bool :=
  if hasType current TokenType.Ident then
    match tokens !! (index + 1) with
    | None => Throw (TypeError_undefined "type")
    | Some next =>
        if hasType next TokenType.Dot then
          match tokens !! (index + 2) with
          | None => Throw (TypeError_undefined "type")
          | Some afterNext => Return (hasType afterNext TokenType.Ident)
          end
        else Return false
    end
  else Return false.

(** The [while (tokens[index])] loop of [normalize].  [None] is a loop
    stopped by the bound [fuel], not a result of the program. *)
Fixpoint normalize_loop (fuel : nat) (tokens : list Token) (index : nat)
    (normalizedTokens : list Token) : option (Outcome (list Token)) :=
  match fuel with
  | O => None
  | S fuel =>
      match tokens !! index with
      | None => Some (Return normalizedTokens)
      | Some current =>
          match isPathTriple tokens index current with
          | Throw e => Some (Throw e)
          | Return true =>
              let merged :=
                {| type := TokenType.Ident;
                   value := value current
                            +:+ from_option value "" (tokens !! (index + 1))
                            +:+ from_option value "" (tokens !! (index + 2)) |} in
              normalize_loop fuel tokens (index + 3) (normalizedTokens ++ [merged])
          | Return false =>
              normalize_loop fuel tokens (index + 1) (normalizedTokens ++ [current])
          end
      end
  end.

(** A bound that is never reached stands for no behaviour of the program;
    [normalize_within_bound] and [parse_within_bound] below show that the
    bounds used here are never reached. *)
Definition boundReached : JsError.t :=
  {| JsError.name := "BoundReached"; JsError.message := "iteration bound of the model"; JsError.items := [] |}.

Definition normalize (tokens : list Token) : Outcome (list Token) :=
  default (Throw boundReached) (normalize_loop (S (length tokens)) tokens 0 []).

(** The normalizer as section 4.1 words it, by cases on the head of the
    stream: an [ident, dot, ident] triple becomes one ident, any other
    token is copied.  A stream that ends inside a would-be triple has no
    token to test. *)
Fixpoint collapse (tokens : list Token) : Outcome (list Token) :=
  match tokens with
  | [] => Return []
  | current :: rest =>
      if hasType current TokenType.Ident then
        match rest with
        | [] => Throw (TypeError_undefined "type")
        | next :: rest' =>
            if hasType next TokenType.Dot then
              match rest' with
              | [] => Throw (TypeError_undefined "type")
              | afterNext :: rest'' =>
                  if hasType afterNext TokenType.Ident then
                    out ← collapse rest'';
                    Return ({| type := TokenType.Ident;
                               value := value current +:+ value next
                                        +:+ value afterNext |} :: out)
                  else out ← collapse rest; Return (current :: out)
              end
            else out ← collapse rest; Return (current :: out)
        end
      else out ← collapse rest; Return (current :: out)
  end.

(** Three neighbouring tokens [ident, dot, ident] somewhere in a stream. *)
Fixpoint hasPathTriple (tokens : list Token) : bool :=
  match tokens with
  | a :: ((b :: c :: _) as rest) =>
      (hasType a TokenType.Ident && hasType b TokenType.Dot
       && hasType c TokenType.Ident) || hasPathTriple rest
  | _ => false
  end.

Definition textOf (tokens : list Token) : string :=
  foldr (fun t acc => value t +:+ acc) "" tokens.

Definition endsWithEOS (tokens : list Token) : bool :=
  match last tokens with
  | Some t => hasType t TokenType.EOS
  | None => false
  end.

(** ** Parser *)

Inductive ConditionType := event_type | event | event_property.

(** What [tokenToConditionType[key]] evaluates to.  The table is an object
    literal, so besides its four own keys a lookup also finds the members
    it inherits from [Object.prototype]; those are truthy values that are
    no condition type. *)
Inductive TableEntry :=
| Own (conditionType : ConditionType)
| Inherited.

Definition objectPrototypeMembers : list string :=
  [ "constructor"; "__defineGetter__"; "__defineSetter__"; "hasOwnProperty";
    "__lookupGetter__"; "__lookupSetter__"; "isPrototypeOf";
    "propertyIsEnumerable"; "toString"; "valueOf"; "__proto__";
    "toLocaleString" ].

Definition tokenToConditionType (key : string) : option TableEntry :=
  if String.eqb key "type" then Some (Own event_type)
  else if String.eqb key "event" then Some (Own event)
  else if String.eqb key "properties" then Some (Own event_property)
  else if String.eqb key "traits" then Some (Own event_property)
  else if Str.includes objectPrototypeMembers key then Some Inherited
  else None.

Definition isFqlFunction (token : Token) : bool :=
  hasType token TokenType.Ident && Str.includes ["contains"; "match"] (value token).

(** [tokens.shift()]: the removed head, [None] for [undefined], and the
    array left. *)
Definition shift (tokens : list Token) : option Token * list Token :=
  match tokens with
  | [] => (None, [])
  | t :: rest => (Some t, rest)
  end.

Section Parser.
Context `{JsNumberOps}.

Inductive JsPrimitive :=
| VString (s : string)
| VNumber (n : JsNumber)
| VBoolean (b : bool).

(** [String(v)] *)
Definition toStr (v : JsPrimitive) : string :=
  match v with
  | VString s => s
  | VNumber n => NumberToString n
  | VBoolean true => "true"
  | VBoolean false => "false"
  end.

Definition getTokenValue (token : Token) : JsPrimitive :=
  if hasType token TokenType.String then
    VString (Str.dropTrailingQuote (Str.dropLeadingQuote (value token)))
  else if hasType token TokenType.Number then
    VNumber (Number (value token))
  else if hasType token TokenType.Ident
          && Str.includes ["true"; "false"] (value token) then
    VBoolean (String.eqb (value token) "true")
  else VString (value token).

(** The AST.  A child of a group is [None] where the program stored
    [undefined], the result of parsing a scope without conditions. *)
Inductive Condition :=
| EventTypeCondition (operator value : string)
| EventCondition (operator value : string)
| EventPropertyCondition (name operator : string) (value : option JsPrimitive)
| GroupCondition (operator : string) (children : list (option Condition)).

Definition Node := option Condition.

Definition isGroup (c : Condition) : bool :=
  match c with GroupCondition _ _ => true | _ => false end.

Definition parseFqlFunction (name : string) (nodes : list Node)
    (tokens : list Token) (negate : bool) : Outcome (list Node * list Token) :=
  '(nodes, tokens) ←
    (if String.eqb name "contains" then
       let tokens := snd (shift tokens) in
       let '(nameToken, tokens) := shift tokens in
       match nameToken with
       | None => Throw (Error "contains() is missing a 1st argument")
       | Some nameToken =>
           let tokens := snd (shift tokens) in
           let '(valueToken, tokens) := shift tokens in
           match valueToken with
           | None => Throw (Error "contains() is missing a 2nd argument")
           | Some valueToken =>
               let tokens := snd (shift tokens) in
               let operator := if negate then "not_contains" else "contains" in
               let nodes :=
                 if String.eqb (value nameToken) "event"
                 then nodes ++ [Some (EventCondition operator
                                        (toStr (getTokenValue valueToken)))]
                 else nodes in
               let nodes :=
                 if Str.hasBagPrefix (value nameToken)
                 then nodes ++ [Some (EventPropertyCondition
                                        (Str.stripBagPrefix (value nameToken))
                                        operator
                                        (Some (VString (toStr (getTokenValue valueToken)))))]
                 else nodes in
               Return (nodes, tokens)
           end
       end
     else Return (nodes, tokens));
  if String.eqb name "match" then
    let tokens := snd (shift tokens) in
    let '(nameToken, tokens) := shift tokens in
    match nameToken with
    | None => Throw (Error "match() is missing a 1st argument")
    | Some nameToken =>
        let tokens := snd (shift tokens) in
        let '(valueToken, tokens) := shift tokens in
        match valueToken with
        | None => Throw (Error "match() is missing a 2nd argument")
        | Some valueToken =>
            let tokens := snd (shift tokens) in
            let '(operator, val) :=
              if Str.endsWith (String Str.star (String Str.quote EmptyString))
                              (value valueToken)
              then (if negate then "not_starts_with" else "starts_with",
                    Str.sliceInit (toStr (getTokenValue valueToken)))
              else (if negate then "not_ends_with" else "ends_with",
                    Str.slice1 (toStr (getTokenValue valueToken))) in
            let nodes :=
              if String.eqb (value nameToken) "event"
              then nodes ++ [Some (EventCondition operator val)]
              else nodes in
            let nodes :=
              if Str.hasBagPrefix (value nameToken)
              then nodes ++ [Some (EventPropertyCondition
                                     (Str.stripBagPrefix (value nameToken))
                                     operator (Some (VString val)))]
              else nodes in
            Return (nodes, tokens)
        end
    end
  else Return (nodes, tokens).

(** The [if (token.type === 'ident')] block of the loop body of [parse]. *)
Definition identStep (token : Token) (nodes : list Node) (tokens : list Token)
  : Outcome (list Node * list Token) :=
  if hasType token TokenType.Ident then
    let tokenStart := Str.firstSegment (value token) in
    '(nodes, tokens) ←
      match tokenToConditionType tokenStart with
      | Some conditionType =>
          let '(operatorToken, tokens) := shift tokens in
          match operatorToken with
          | None => Throw (Error "Operator token is missing")
          | Some operatorToken =>
              let '(valueToken, tokens) := shift tokens in
              match valueToken with
              | None => Throw (Error "Value token is missing")
              | Some valueToken =>
                  match conditionType with
                  | Own event =>
                      Return (nodes ++ [Some (EventCondition (value operatorToken)
                                                (toStr (getTokenValue valueToken)))],
                              tokens)
                  | Own event_type =>
                      Return (nodes ++ [Some (EventTypeCondition (value operatorToken)
                                                (toStr (getTokenValue valueToken)))],
                              tokens)
                  | Own event_property =>
                      let name := Str.stripBagPrefix (value token) in
                      if String.eqb (value operatorToken) "!="
                         && String.eqb (value valueToken) "null" then
                        Return (nodes ++ [Some (EventPropertyCondition name "exists" None)],
                                tokens)
                      else if String.eqb (value operatorToken) "="
                              && String.eqb (value valueToken) "null" then
                        Return (nodes ++ [Some (EventPropertyCondition name "not_exists" None)],
                                tokens)
                      else
                        Return (nodes ++ [Some (EventPropertyCondition name
                                                  (value operatorToken)
                                                  (Some (getTokenValue valueToken)))],
                                tokens)
                  | Inherited => Return (nodes, tokens)
                  end
              end
          end
      | None => Return (nodes, tokens)
      end;
    if isFqlFunction token
    then parseFqlFunction (value token) nodes tokens false
    else Return (nodes, tokens)
  else Return (nodes, tokens).

(** The [if (token.type === 'operator' && token.value === '!')] block.
    [isFqlFunction(tokens[0])] reads [.type] of [tokens[0]]. *)
Definition negationStep (token : Token) (nodes : list Node) (tokens : list Token)
  : Outcome (list Node * list Token) :=
  if hasType token TokenType.Operator && String.eqb (value token) "!" then
    match tokens !! 0%nat with
    | None => Throw (TypeError_undefined "type")
    | Some first =>
        if isFqlFunction first then
          let name := value first in
          let tokens := snd (shift tokens) in
          parseFqlFunction name nodes tokens true
        else Return (nodes, tokens)
    end
  else Return (nodes, tokens).

(** The inner [while (groupToken!.type !== 'parenright')] loop: the tokens
    before the first closing parenthesis, and the tokens left after it. *)
Fixpoint collectGroup (tokens groupTokens : list Token)
  : Outcome (list Token * list Token) :=
  match tokens with
  | [] => Throw (TypeError_undefined "type")
  | groupToken :: tokens =>
      if hasType groupToken TokenType.ParenRight
      then Return (groupTokens, tokens)
      else collectGroup tokens (groupTokens ++ [groupToken])
  end.

(** The return statement of [parse]. *)
Definition finish (nodes : list Node) (operator : string) : Node :=
  if decide (1 < length nodes)
  then Some (GroupCondition operator nodes)
  else mjoin (nodes !! 0%nat).

(** The [while] loop of [parse], with the loop state [token], [tokens],
    [nodes], [operator]; the result pairs the final [nodes] and [operator].
    The recursive call [parse(groupTokens)] is the same loop started on
    the group's tokens.  [None] is a loop stopped by the bound [fuel]. *)
Fixpoint parse_loop (fuel : nat) (token : option Token) (tokens : list Token)
    (nodes : list Node) (operator : string)
  : option (Outcome (list Node * string)) :=
  match fuel with
  | O => None
  | S fuel =>
      match token with
      | None => Some (Return (nodes, operator))
      | Some token =>
          if hasType token TokenType.EOS then Some (Return (nodes, operator))
          else
            match identStep token nodes tokens with
            | Throw e => Some (Throw e)
            | Return (nodes, tokens) =>
                match negationStep token nodes tokens with
                | Throw e => Some (Throw e)
                | Return (nodes, tokens) =>
                    let grouped :=
                      if hasType token TokenType.ParenLeft then
                        match collectGroup tokens [] with
                        | Throw e => Some (Throw e)
                        | Return (groupTokens, tokens) =>
                            let groupTokens := groupTokens ++ [eosToken] in
                            match parse_loop fuel (fst (shift groupTokens))
                                    (snd (shift groupTokens)) [] "and" with
                            | None => None
                            | Some (Throw e) => Some (Throw e)
                            | Some (Return (inner, innerOperator)) =>
                                Some (Return (nodes ++ [finish inner innerOperator],
                                              tokens))
                            end
                        end
                      else Some (Return (nodes, tokens)) in
                    match grouped with
                    | None => None
                    | Some (Throw e) => Some (Throw e)
                    | Some (Return (nodes, tokens)) =>
                        let operator :=
                          if hasType token TokenType.Conditional
                          then value token else operator in
                        parse_loop fuel (fst (shift tokens)) (snd (shift tokens))
                          nodes operator
                    end
                end
            end
      end
  end.

(** The sibling conditions a scope yields, and its combining operator. *)
Definition parseScope (tokens : list Token) : Outcome (list Node * string) :=
  default (Throw boundReached)
    (parse_loop (S (length tokens)) (fst (shift tokens)) (snd (shift tokens))
       [] "and").

Definition parse (tokens : list Token) : Outcome Node :=
  '(nodes, operator) ← parseScope tokens;
  Return (finish nodes operator).

Inductive Subscription :=
| Valid (ast : Condition)
| ErrorCondition (error : JsError.t).

(** Every value thrown inside the [try] is an [Error] instance here, so
    the [catch] keeps it. *)
Definition parseFql (fql : string) : Subscription :=
  match (tokens ← lex fql; normalized ← normalize tokens; parse normalized) with
  | Return None => ErrorCondition (TypeError_undefined "type")
  | Return (Some ast) =>
      if negb (isGroup ast)
      then Valid (GroupCondition "and" [Some ast])
      else Valid ast
  | Throw error => ErrorCondition error
  end.

(** The grouping invariant of the data model: every group of an AST has
    more than one child. *)
Definition wellGroupedNode (wg : Condition -> bool) (n : Node) : bool :=
  match n with
  | Some c => wg c
  | None => true
  end.

Fixpoint wellGrouped (c : Condition) : bool :=
  match c with
  | GroupCondition _ children =>
      bool_decide (1 < length children)
      && forallb (wellGroupedNode wellGrouped) children
  | _ => true
  end.

(** The conditions collected so far in a scope keep that invariant. *)
Definition nodesOk (nodes : list Node) : Prop :=
  forallb (wellGroupedNode wellGrouped) nodes = true.

End Parser.

(** ** JSON values *)

Section Json.
Context `{JsNumberOps}.

Inductive JSON :=
| JNull
| JBool (b : bool)
| JNum (n : JsNumber)
| JStr (s : string)
| JArr (elements : list JSON)
| JObj (fields : gmap string JSON).

(** Truthiness, as [if (v)] and [v || w] test it. *)
Definition truthy (v : option JSON) : bool :=
  match v with
  | None | Some JNull => false
  | Some (JBool b) => b
  | Some (JNum n) => number_truthy n
  | Some (JStr s) => negb (String.eqb s "")
  | Some (JArr _) | Some (JObj _) => true
  end.

Definition joinComma (parts : list string) : string :=
  match parts with
  | [] => ""
  | first :: rest => foldl (fun acc part => acc +:+ "," +:+ part) first rest
  end.

(** [String(j)], as a template literal and a property key convert. *)
Fixpoint jsonToString (j : JSON) : string :=
  match j with
  | JNull => "null"
  | JBool true => "true"
  | JBool false => "false"
  | JNum n => NumberToString n
  | JStr s => s
  | JArr elements =>
      joinComma (map (fun element =>
                        match element with
                        | JNull => ""
                        | _ => jsonToString element
                        end) elements)
  | JObj _ => "[object Object]"
  end.

Definition valueToString (v : option JSON) : string :=
  match v with
  | None => "undefined"
  | Some j => jsonToString j
  end.

(** [typeof v === 'string'] *)
Definition isString (v : option JSON) : bool :=
  match v with
  | Some (JStr _) => true
  | _ => false
  end.

End Json.

(** A JavaScript value that is JSON or [undefined]; objects and events
    as dictionaries. *)
Abbreviation JsValue := (option JSON).
Abbreviation JSONObject := (gmap string JSON).
Abbreviation SegmentEvent := (gmap string JSON).

(** ** Promises

    A settled promise: the tick at which it settles, counted from the
    call that created it, and how it settles ([Return] fulfils, [Throw]
    rejects). *)
Record Promise (A : Type) := mkPromise {
  settledAt : nat;
  outcome : Outcome A
}.
Arguments mkPromise {A} settledAt outcome.
Arguments settledAt {A} p.
Arguments outcome {A} p.

(** The rejection [Promise.all] takes: the earliest one, and among
    promises rejecting at one tick the first in the array. *)
Fixpoint firstRejection {A} (promises : list (Promise A))
  : option (nat * JsError.t) :=
  match promises with
  | [] => None
  | p :: rest =>
      match outcome p, firstRejection rest with
      | Throw e, Some (t', e') =>
          if Nat.leb (settledAt p) t' then Some (settledAt p, e) else Some (t', e')
      | Throw e, None => Some (settledAt p, e)
      | Return _, later => later
      end
  end.

Definition fulfilledValues {A} (promises : list (Promise A)) : list A :=
  omap (fun p => match outcome p with
                 | Return a => Some a
                 | Throw _ => None
                 end) promises.

(** [Promise.all(promises)]: rejects as soon as one promise rejects, and
    fulfils with all values, in array order, once every promise has. *)
Definition Promise_all {A} (promises : list (Promise A)) : Promise (list A) :=
  match firstRejection promises with
  | Some (t, e) => {| settledAt := t; outcome := Throw e |}
  | None =>
      {| settledAt := foldr Nat.max 0 (map settledAt promises);
         outcome := Return (fulfilledValues promises) |}
  end.

Module StepResult.
Section Defs.
Context `{JsNumberOps}.
Record t := mk { output : JSON }.
End Defs.
End StepResult.

(** ** The destination *)

(** The [got] instance a credential test receives: the options of
    [got.extend], and the option objects it was extended with after. *)
Module Got.
Section Defs.
Context `{JsNumberOps}.
Record t := mk {
  retry : nat;
  timeout : nat;
  headers : gmap string JsValue;
  extensions : list JSON
}.
End Defs.
End Got.

Module Authentication.
Section Defs.
Context `{JsNumberOps}.
(** [testAuthentication] is the request of the scheme, by how it settles. *)
Record t := mk {
  scheme : string;
  fields : option JSONObject;
  testAuthentication : option (Got.t -> JSONObject -> Outcome unit)
}.
End Defs.
End Authentication.

Module Action.
Section Defs.
Context `{JsNumberOps}.
(** An action, by its [execute]; the arguments are the fields
    [cachedFields], [mapping], [payload] and [settings] of its bundle. *)
Record t := mk {
  execute : JSONObject -> JSON -> SegmentEvent -> JSONObject
            -> Promise (list StepResult.t)
}.
End Defs.
End Action.

Module Destination.
Section Defs.
Context `{JsNumberOps}.

(** [validate] of the subscriptions package and [JSON.parse]. *)
Variable validate : Subscription -> SegmentEvent -> bool.
Variable JSON_parse : string -> Outcome JSON.

(** The state of a [Destination] object.  [settingsSchema] is the schema
    by what the [Validate] step built from it does with a settings
    object; [extendRequest] receives a context whose [payload] and
    [cachedFields] are empty, so it is a function of the settings. *)
Record t := mk {
  name : string;
  authentication : option Authentication.t;
  extendRequest : option (JSONObject -> Outcome JSON);
  actions : gmap string Action.t;
  settingsSchema : option (JSONObject -> Outcome unit)
}.

Record EventInput := mkEventInput {
  event : SegmentEvent;
  mapping : JSON;
  settings : JSONObject
}.

Record SubscriptionStats := mkSubscriptionStats {
  duration : nat;
  destination : string;
  action : JsValue;
  subscribe : JsValue;
  state : string;
  input : EventInput;
  output : option (list StepResult.t)
}.

(** What an asynchronous method did: the promise it returned, and the
    calls it made to the observer [onComplete]. *)
Record Run := mkRun {
  promise : Promise (list StepResult.t);
  reports : list SubscriptionStats
}.

(** The [Validate] step on the settings, when a schema is configured. *)
Definition validateSettings (d : t) (settings : JSONObject) : Outcome unit :=
  match settingsSchema d with
  | Some executeStep => executeStep settings
  | None => Return tt
  end.

(** The [got] instance of the credential test: no retry, a timeout of
    three seconds, extended by [extendRequest] when there is one. *)
Definition testRequest (d : t) (settings : JSONObject) : Outcome Got.t :=
  let request :=
    {| Got.retry := 0; Got.timeout := 3000;
       Got.headers := {[ "user-agent" := None ]};
       Got.extensions := [] |} in
  match extendRequest d with
  | Some extend =>
      options ← extend settings;
      Return {| Got.retry := Got.retry request;
                Got.timeout := Got.timeout request;
                Got.headers := Got.headers request;
                Got.extensions := Got.extensions request ++ [options] |}
  | None => Return request
  end.

Definition testAuthentication (d : t) (settings : JSONObject) : Outcome unit :=
  _ ← validateSettings d settings;
  match authentication d ≫= Authentication.testAuthentication with
  | None => Return tt
  | Some test =>
      request ← testRequest d settings;
      match test request settings with
      | Return _ => Return tt
      | Throw _ => Throw (Error "Credentials are invalid")
      end
  end.

Definition BadRequest (msg : string) : JsError.t :=
  {| JsError.name := "BadRequestError"; JsError.message := msg; JsError.items := [] |}.

Definition notAFunction (what : string) : JsError.t :=
  {| JsError.name := "TypeError";
     JsError.message := what +:+ " is not a function";
     JsError.items := [] |}.

(** [this.actions] is an object literal: a slug that names a member of
    [Object.prototype] finds that member, which has no [execute]. *)
Definition executeAction (d : t) (actionSlug : JsValue) (input : EventInput)
  : Outcome (Promise (list StepResult.t)) :=
  let key := valueToString actionSlug in
  match actions d !! key with
  | Some action =>
      Return (Action.execute action ∅ (mapping input) (event input) (settings input))
  | None =>
      if Str.includes objectPrototypeMembers key
      then Throw (notAFunction "action.execute")
      else Throw (BadRequest (String Str.quote key
                              +:+ String Str.quote " is not a valid action"))
  end.

(** [subscription.key] for one of the keys [partnerAction], [subscribe]
    and [mapping], on a subscription that is not [null]. *)
Definition field (subscription : JSON) (key : string) : JsValue :=
  match subscription with
  | JObj fields => fields !! key
  | _ => None
  end.

Definition invalidSubscription : list StepResult.t :=
  [ {| StepResult.output := JStr "invalid subscription" |} ].

Definition notSubscribed : list StepResult.t :=
  [ {| StepResult.output := JStr "not subscribed" |} ].

(** [onSubscription], called at tick 0.  [settle] is the [finally] block
    followed by the settling of the returned promise; [time()] reads the
    tick and [duration] subtracts. *)
Definition onSubscription (d : t) (subscription : JSON) (event : SegmentEvent)
    (settings : JSONObject) (onComplete : bool) : Run :=
  match subscription with
  | JNull =>
      {| promise := {| settledAt := 0; outcome := Throw (TypeError_null "partnerAction") |};
         reports := [] |}
  | _ =>
      let subscriptionStartedAt := 0 in
      let actionSlug := field subscription "partnerAction" in
      let input :=
        {| event := event;
           mapping := if truthy (field subscription "mapping")
                      then default (JObj ∅) (field subscription "mapping")
                      else JObj ∅;
           settings := settings |} in
      let settle (tick : nat) (state : string)
                 (results : option (list StepResult.t))
                 (completion : Outcome (list StepResult.t)) :=
        let subscriptionEndedAt := tick in
        {| promise := {| settledAt := tick; outcome := completion |};
           reports :=
             if onComplete then
               [ {| duration := subscriptionEndedAt - subscriptionStartedAt;
                    destination := name d;
                    action := actionSlug;
                    subscribe := field subscription "subscribe";
                    state := if negb (String.eqb state "done")
                             then "errored" else "done";
                    input := input;
                    output := results |} ]
             else [] |} in
      match field subscription "subscribe" with
      | Some (JStr fql) =>
          let isSubscribed := validate (parseFql fql) event in
          if negb isSubscribed
          then settle 0 "pending" (Some notSubscribed) (Return notSubscribed)
          else
            match executeAction d actionSlug input with
            | Throw e => settle 0 "pending" None (Throw e)
            | Return pending =>
                match outcome pending with
                | Return results =>
                    settle (settledAt pending) "done" (Some results) (Return results)
                | Throw e => settle (settledAt pending) "pending" None (Throw e)
                end
            end
      | _ => settle 0 "pending" (Some invalidSubscription) (Return invalidSubscription)
      end
  end.

(** The array [parsedSubscriptions], or what [JSON.parse] made of the
    string.  A truthy [subscription] is defined, so [option_list] of it
    is the one-element array [[subscription]]. *)
Definition getSubscriptions (settings : JSONObject) : Outcome JSON :=
  let subscription := settings !! "subscription" in
  let subscriptions := settings !! "subscriptions" in
  if truthy subscription then
    Return (JArr (option_list subscription))
  else
    match subscriptions with
    | Some (JStr text) => JSON_parse text
    | Some (JArr elements) => Return (JArr elements)
    | _ => Return (JArr [])
    end.

(** The rest object of the destructuring: [settings] without the keys
    the pattern names. *)
Definition getDestinationSettings (settings : JSONObject) : JSONObject :=
  delete "subcription" (delete "subscriptions" settings).

Definition onEvent (d : t) (event : SegmentEvent) (settings : JSONObject)
    (onComplete : bool) : Run :=
  match getSubscriptions settings with
  | Throw e => {| promise := {| settledAt := 0; outcome := Throw e |}; reports := [] |}
  | Return subscriptions =>
      let destinationSettings := getDestinationSettings settings in
      match subscriptions with
      | JArr elements =>
          let runs :=
            map (fun subscription =>
                   onSubscription d subscription event destinationSettings onComplete)
                elements in
          let all := Promise_all (map promise runs) in
          {| promise := {| settledAt := settledAt all;
                           outcome := results ← outcome all; Return (concat results) |};
             reports := concat (map reports runs) |}
      | JNull =>
          {| promise := {| settledAt := 0; outcome := Throw (TypeError_null "map") |};
             reports := [] |}
      | _ =>
          {| promise := {| settledAt := 0;
                           outcome := Throw (notAFunction "subscriptions.map") |};
             reports := [] |}
      end
  end.

End Defs.
End Destination.

(** ** The credential test of the server *)

Module Server.
Section Defs.
Context `{JsNumberOps}.

(** The JSON body and status a handler answers with. *)
Record Reply := mkReply {
  status : nat;
  ok : bool;
  error : option string;
  fields : option (gmap string string)
}.

(** The [for ... of] loop over an [AggregateAjvError].  [fields] is an
    object literal, so the assignment [fields[name] = message] for the
    name [__proto__] calls the setter of [Object.prototype], which
    ignores a string: no field is created. *)
Definition fieldMessages (error : JsError.t) : gmap string string :=
  foldl (fun fields fieldError =>
           let name := Str.removeFirstDollarDot (AjvError.path fieldError) in
           if String.eqb name "__proto__" then fields
           else <[ name := AjvError.message fieldError ]> fields)
        ∅ (JsError.items error).

(** The [try] and [catch] of the [/test-credentials] handler. *)
Definition testCredentials (destinationDefinition : Destination.t)
    (settings : JSONObject) : Reply :=
  match Destination.testAuthentication destinationDefinition settings with
  | Return _ => {| status := 200; ok := true; error := None; fields := None |}
  | Throw error =>
      if String.eqb (JsError.name error) "AggregateAjvError" then
        {| status := 200; ok := false;
           error := Some "Credentials are invalid";
           fields := Some (fieldMessages error) |}
      else
        {| status := 200; ok := false;
           error := Some (JsError.message error);
           fields := None |}
  end.

End Defs.
End Server.

(** ** Evaluator *)

(** Modelled from the spec: the comparisons and the structural walk of
    the Evaluator (section 4.3); [validate] below states its rules. *)
Module Evaluator.
Section Defs.
Context `{JsNumberOps}.

Fixpoint isSubstring (needle hay : string) : bool :=
  String.prefix needle hay ||
  match hay with
  | EmptyString => false
  | String _ rest => isSubstring needle rest
  end.

Definition compareStrings (operator actual expected : string) : bool :=
  if String.eqb operator "=" then String.eqb actual expected
  else if String.eqb operator "!=" then negb (String.eqb actual expected)
  else if String.eqb operator "<" then String.ltb actual expected
  else if String.eqb operator "<=" then String.leb actual expected
  else if String.eqb operator ">" then String.ltb expected actual
  else if String.eqb operator ">=" then String.leb expected actual
  else if String.eqb operator "contains" then isSubstring expected actual
  else if String.eqb operator "not_contains" then negb (isSubstring expected actual)
  else if String.eqb operator "starts_with" then Str.startsWith expected actual
  else if String.eqb operator "not_starts_with" then negb (Str.startsWith expected actual)
  else if String.eqb operator "ends_with" then Str.endsWith expected actual
  else if String.eqb operator "not_ends_with" then negb (Str.endsWith expected actual)
  else false.

Definition compareNumbers (operator : string) (actual expected : JsNumber) : bool :=
  if String.eqb operator "=" then number_eqb actual expected
  else if String.eqb operator "!=" then negb (number_eqb actual expected)
  else if String.eqb operator "<" then number_ltb actual expected
  else if String.eqb operator "<=" then number_ltb actual expected || number_eqb actual expected
  else if String.eqb operator ">" then number_ltb expected actual
  else if String.eqb operator ">=" then number_ltb expected actual || number_eqb actual expected
  else false.

Definition compareValues (operator : string) (actual : JSON) (expected : JsPrimitive)
  : bool :=
  match actual, expected with
  | JStr a, VString e => compareStrings operator a e
  | JNum a, VNumber e => compareNumbers operator a e
  | JBool a, VBoolean e =>
      if String.eqb operator "=" then Bool.eqb a e
      else if String.eqb operator "!=" then negb (Bool.eqb a e)
      else false
  | _, _ => false
  end.

Definition attribute (event : SegmentEvent) (key : string) (operator expected : string)
  : bool :=
  match event !! key with
  | Some (JStr actual) => compareStrings operator actual expected
  | _ => false
  end.

Definition lookupProperty (event : SegmentEvent) (name : string) : JsValue :=
  match event !! "properties" ≫= (fun bag => Destination.field bag name) with
  | Some v => Some v
  | None => event !! "traits" ≫= (fun bag => Destination.field bag name)
  end.

Fixpoint evaluate (condition : Condition) (event : SegmentEvent) : bool :=
  match condition with
  | EventTypeCondition operator expected => attribute event "type" operator expected
  | EventCondition operator expected => attribute event "event" operator expected
  | EventPropertyCondition name operator expected =>
      if String.eqb operator "exists" then bool_decide (is_Some (lookupProperty event name))
      else if String.eqb operator "not_exists"
        then negb (bool_decide (is_Some (lookupProperty event name)))
      else
        match lookupProperty event name, expected with
        | Some actual, Some expected => compareValues operator actual expected
        | _, _ => false
        end
  | GroupCondition operator children =>
      let child (n : Node) :=
        match n with
        | Some c => evaluate c event
        | None => false
        end in
      if String.eqb operator "and" then forallb child children
      else if String.eqb operator "or" then existsb child children
      else false
  end.

End Defs.
End Evaluator.

(** Modelled from the spec: [validate] of the subscriptions package, the
    Evaluator of section 4.3, whose source is not among the files under
    verification.  An event-type or event-name condition compares the
    attribute [type] or [event] of the event with the condition's value
    under its operator, strings lexically; a property condition looks its
    name up in the [properties] bag and then in the [traits] bag, tests
    definedness for [exists] and [not_exists], and compares otherwise,
    numbers numerically; a group folds its children with [and] or [or];
    an error condition never matches.  Where the section is silent (an
    absent attribute, values of different kinds, an [undefined] child)
    the condition does not match. *)
Definition validate `{JsNumberOps} (subscription : Subscription)
    (event : SegmentEvent) : bool :=
  match subscription with
  | Valid ast => Evaluator.evaluate ast event
  | ErrorCondition _ => false
  end.

(** ** Token streams by shape

    Streams as the parser receives them, after the normalizer: the
    comparisons and conditional words of a scope without parentheses and
    calls, and the call of [contains]. *)

Definition identToken (text : string) : Token :=
  {| type := TokenType.Ident; value := text |}.

Definition parenLeft : Token := {| type := TokenType.ParenLeft; value := "(" |}.
Definition parenRight : Token := {| type := TokenType.ParenRight; value := ")" |}.

Inductive Attribute := TypeAttribute | EventAttribute.

Definition attributeName (a : Attribute) : string :=
  match a with
  | TypeAttribute => "type"
  | EventAttribute => "event"
  end.

(** A comparison on the type or the name of the event, with any token as
    its operator and as its value, or a conditional word. *)
Inductive Piece :=
| Compare (attribute : Attribute) (operatorToken valueToken : Token)
| Word (word : string).

Definition pieceTokens (p : Piece) : list Token :=
  match p with
  | Compare a operatorToken valueToken =>
      [identToken (attributeName a); operatorToken; valueToken]
  | Word word => [ {| type := TokenType.Conditional; value := word |} ]
  end.

Definition flatTokens (pieces : list Piece) : list Token :=
  concat (map pieceTokens pieces) ++ [eosToken].

(** The conditional word read last, [operator] when there is none. *)
Definition lastWord (pieces : list Piece) (operator : string) : string :=
  foldl (fun operator p => match p with
                           | Word word => word
                           | Compare _ _ _ => operator
                           end) operator pieces.

(** The tokens of [contains(field, literal)], after a [!] when [negated]. *)
Definition containsCall (negated : bool) (field literal : string) : list Token :=
  (if negated then [ {| type := TokenType.Operator; value := "!" |} ] else [])
  ++ [ identToken "contains";
       parenLeft;
       identToken field;
       {| type := TokenType.Comma; value := "," |};
       {| type := TokenType.String; value := q literal |};
       parenRight;
       eosToken ].

Definition dotToken : Token := {| type := TokenType.Dot; value := "." |}.

(** The tokens of [contains(bag.s1.s2, literal)] as the lexer gives them,
    the bag and every segment an ident of its own, after a [!] when
    [negated]. *)
Definition containsTokens (negated usesTraits : bool) (segments : list string)
    (literal : string) : list Token :=
  (if negated then [ {| type := TokenType.Operator; value := "!" |} ] else [])
  ++ [ identToken "contains";
       parenLeft;
       identToken (if usesTraits then "traits" else "properties") ]
  ++ flat_map (fun segment => [dotToken; identToken segment]) segments
  ++ [ {| type := TokenType.Comma; value := "," |};
       {| type := TokenType.String; value := q literal |};
       parenRight;
       eosToken ].

(** The path of [key] in the bag [traits] or [properties]. *)
Definition bagPath (usesTraits : bool) (key : string) : string :=
  (if usesTraits then "traits." else "properties.") +:+ key.

Definition noCloser (tokens : list Token) : bool :=
  forallb (fun t => negb (hasType t TokenType.ParenRight)) tokens.

Definition noDots (tokens : list Token) : bool :=
  forallb (fun t => negb (hasType t TokenType.Dot)) tokens.

Section Scopes.
Context `{JsNumberOps}.

(** The loop of [parse] entered with [stream] still to shift and the
    [nodes] and [operator] collected so far. *)
Definition scope (stream : list Token) (nodes : list Node) (operator : string)
  : Outcome (list Node * string) :=
  default (Throw boundReached)
    (parse_loop (S (length stream)) (fst (shift stream)) (snd (shift stream))
       nodes operator).

(** The node the loop pushes for a piece. *)
Definition pieceCondition (p : Piece) : option Node :=
  match p with
  | Compare TypeAttribute operatorToken valueToken =>
      Some (Some (EventTypeCondition (value operatorToken)
                    (toStr (getTokenValue valueToken))))
  | Compare EventAttribute operatorToken valueToken =>
      Some (Some (EventCondition (value operatorToken)
                    (toStr (getTokenValue valueToken))))
  | Word _ => None
  end.

Definition conditionsOf (pieces : list Piece) : list Node :=
  omap pieceCondition pieces.

End Scopes.

(** ** Subscriptions that run no action *)

Section Dispatch.
Context `{JsNumberOps}.
Variable validate : Subscription -> SegmentEvent -> bool.

(** Whether [subscribe] of a subscription is a string whose filter
    matches the event. *)
Definition matches (subscription : JSON) (event : SegmentEvent) : bool :=
  match Destination.field subscription "subscribe" with
  | Some (JStr fql) => validate (parseFql fql) event
  | _ => false
  end.

(** The [input] that [onSubscription] builds and passes to
    [executeAction]. *)
Definition subscriptionInput (subscription : JSON) (event : SegmentEvent)
    (settings : JSONObject) : Destination.EventInput :=
  {| Destination.event := event;
     Destination.mapping :=
       if truthy (Destination.field subscription "mapping")
       then default (JObj ∅) (Destination.field subscription "mapping")
       else JObj ∅;
     Destination.settings := settings |}.

(** The result of a subscription that does not run its action. *)
Definition sentinel (subscription : JSON) : list StepResult.t :=
  if isString (Destination.field subscription "subscribe")
  then Destination.notSubscribed else Destination.invalidSubscription.

(** Settings in which [getSubscriptions] finds an empty array. *)
Definition noSubscriptions (settings : JSONObject) : bool :=
  negb (truthy (settings !! "subscription"))
  && match settings !! "subscriptions" with
     | Some (JStr _) => false
     | Some (JArr []) => true
     | Some (JArr (_ :: _)) => false
     | _ => true
     end.

End Dispatch.

(** ** The field errors of a validation failure *)

(** Whether the handler files [fieldError] under [key]. *)
Definition reportsField (key : string) (fieldError : AjvError.t) : Prop :=
  Str.removeFirstDollarDot (AjvError.path fieldError) = key.

#[global] Instance reportsField_dec (key : string) (fieldError : AjvError.t) :
  Decision (reportsField key fieldError).
Proof. unfold reportsField. apply _. Defined.

(** ** The Friendbuy actions

    [perform] of [trackCustomer] and of [trackPurchase], with the helpers
    [getName] and [pickDefined].  [request(url, options)] is modelled by
    the url and the options it is called with. *)

Module Friendbuy.
Section Defs.
Context `{JsNumberOps}.

(** The argument of [JSON.stringify]: an object literal whose values may
    be [undefined], or a member found on [Object.prototype]. *)
Inductive Literal :=
| LValue (v : JsValue)
| LInherited
| LObject (fields : list (string * Literal)).

(** The options of a request. *)
Record Request := mkRequest {
  url : string;
  method : string;
  searchParams : gmap string JsValue;
  headers : option (gmap string JSON)
}.

(** [base64Encode] of the destination, the built-ins [encodeURIComponent]
    and [JSON.stringify], and the constant [trackUrl]. *)
Variable base64Encode : string -> string.
Variable encodeURIComponent : string -> string.
Variable JSON_stringify : Literal -> string.
Variable trackUrl : string.

Definition getName (payload : JSONObject) : JsValue :=
  if truthy (payload !! "name") then payload !! "name"
  else if truthy (payload !! "firstName") && truthy (payload !! "lastName") then
    Some (JStr (valueToString (payload !! "firstName") +:+ " "
                +:+ valueToString (payload !! "lastName")))
  else None.

(** [value !== undefined && value !== null] *)
Definition defined (v : JsValue) : option JSON :=
  match v with
  | None | Some JNull => None
  | Some j => Some j
  end.

(** [pickDefined]: the loop over [Object.entries(obj)].  A key present
    with the value [undefined] is an entry [None].  (An own key
    [__proto__] would set the prototype of the result instead; the
    properties below are about objects without it.) *)
Definition pickDefined (obj : gmap string JsValue) : gmap string JSON :=
  map_fold (fun key value result =>
              match defined value with
              | Some j => <[ key := j ]> result
              | None => result
              end) ∅ obj.

(** The spread of [profile && { tracker: profile }] into an object. *)
Definition withTracker (profile : JsValue) (params : gmap string JsValue)
  : gmap string JsValue :=
  if truthy profile then <[ "tracker" := profile ]> params else params.

Definition metadataOf (payload : JSONObject) : string :=
  base64Encode
    (JSON_stringify
       (LObject [ ("url", LValue (payload !! "pageUrl"));
                  ("title", LValue (payload !! "pageTitle"));
                  ("ipAddress", LValue (payload !! "ipAddress")) ])).

(** [perform] of the action [trackCustomer]. *)
Definition trackCustomer (payload settings : JSONObject) : Request :=
  let encoded :=
    base64Encode
      (encodeURIComponent
         (JSON_stringify
            (LObject
               [ ("customer",
                  LObject [ ("id", LValue (payload !! "customerId"));
                            ("email", LValue (payload !! "email"));
                            ("firstName", LValue (payload !! "firstName"));
                            ("lastName", LValue (payload !! "lastName"));
                            ("name", LValue (getName payload)) ]) ]))) in
  let metadata := metadataOf payload in
  {| url := trackUrl;
     method := "get";
     searchParams :=
       withTracker (payload !! "profile")
         (<[ "type" := Some (JStr "customer") ]>
            (<[ "merchantId" := settings !! "merchantId" ]>
               (<[ "metadata" := Some (JStr metadata) ]>
                  {[ "payload" := Some (JStr encoded) ]})));
     headers :=
       Some (pickDefined
               (<[ "Referer" := payload !! "pageUrl" ]>
                  (<[ "User-Agent" := payload !! "userAgent" ]>
                     {[ "X-Forwarded-For" := payload !! "ipAddress" ]}))) |}.

(** What [data.payload[key]] evaluates to: an own value, [undefined], or
    a member inherited from [Object.prototype]. *)
Inductive Member :=
| Held (v : JsValue)
| FromPrototype.

Definition memberTruthy (m : Member) : bool :=
  match m with
  | Held v => truthy v
  | FromPrototype => true
  end.

Definition payloadMember (payload : JSONObject) (key : JsValue) : Member :=
  match payload !! valueToString key with
  | Some j => Held (Some j)
  | None =>
      if Str.includes objectPrototypeMembers (valueToString key)
      then FromPrototype else Held None
  end.

(** The [amount] of [perform] of the action [trackPurchase]. *)
Definition purchaseAmount (payload : JSONObject) : Member :=
  let chosen := payloadMember payload (payload !! "amountSource") in
  if memberTruthy chosen then chosen
  else if truthy (payload !! "total") then Held (payload !! "total")
  else if truthy (payload !! "subtotal") then Held (payload !! "subtotal")
  else Held (payload !! "revenue").

Definition memberLiteral (m : Member) : Literal :=
  match m with
  | Held v => LValue v
  | FromPrototype => LInherited
  end.

(** [perform] of the action [trackPurchase]; [None] when it returns
    without a request. *)
Definition trackPurchase (payload settings : JSONObject) : option Request :=
  let amount := purchaseAmount payload in
  match amount with
  | Held None => None
  | _ =>
      let encoded :=
        base64Encode
          (encodeURIComponent
             (JSON_stringify
                (LObject
                   [ ("purchase",
                      LObject
                        ([ ("id", LValue (payload !! "orderId"));
                           ("amount", memberLiteral amount);
                           ("currency", LValue (payload !! "currency"));
                           ("couponCode", LValue (payload !! "coupon")) ]
                         ++ (if truthy (payload !! "customerId")
                             then [ ("customer",
                                     LObject [ ("id", LValue (payload !! "customerId")) ]) ]
                             else [])
                         ++ [ ("products", LValue (payload !! "products")) ])) ]))) in
      let metadata := metadataOf payload in
      Some {| url := trackUrl;
              method := "get";
              searchParams :=
                withTracker (payload !! "profile")
                  (<[ "type" := Some (JStr "purchase") ]>
                     (<[ "merchantId" := settings !! "merchantId" ]>
                        (<[ "metadata" := Some (JStr metadata) ]>
                           {[ "payload" := Some (JStr encoded) ]})));
              headers := None |}
  end.

End Defs.
End Friendbuy.

(** ** Construction of a destination *)

Module DestinationDefinition.
Section Defs.
Context `{JsNumberOps}.
Variable ActionDefinition : Type.

Record t := mk {
  name : string;
  extendRequest : option (JSONObject -> Outcome JSON);
  authentication : option Authentication.t;
  actions : gmap string ActionDefinition
}.
End Defs.
Arguments mk {_ _} name extendRequest authentication actions.
Arguments name {_ _} t.
Arguments extendRequest {_ _} t.
Arguments authentication {_ _} t.
Arguments actions {_ _} t.
End DestinationDefinition.

Module Construction.
Section Defs.
Context `{JsNumberOps}.

(** The definition of an action and the JSON schema of settings; the
    constructor of [Action], [fieldsToJsonSchema] and the [Validate] step
    on settings are collaborators of the class. *)
Variable ActionDefinition : Type.
Variable JSONSchema : Type.
Variable newAction :
  ActionDefinition -> option (JSONObject -> Outcome JSON) -> Action.t.
Variable fieldsToJsonSchema : JSONObject -> JSONSchema.
Variable executeStep : JSONSchema -> JSONObject -> Outcome unit.

(** [partnerAction]: the table with the new action under [slug].  (For
    the slug [__proto__] the assignment sets the prototype of the table
    instead; the properties below are about definitions without it.) *)
Definition partnerAction (this : Destination.t) (slug : string)
    (definition : ActionDefinition) : Destination.t :=
  {| Destination.name := Destination.name this;
     Destination.authentication := Destination.authentication this;
     Destination.extendRequest := Destination.extendRequest this;
     Destination.actions :=
       <[ slug := newAction definition (Destination.extendRequest this) ]>
         (Destination.actions this);
     Destination.settingsSchema := Destination.settingsSchema this |}.

(** The constructor: the fields copied from the definition, the schema
    of the settings when the authentication has fields, and one
    [partnerAction] per key of [destination.actions]. *)
Definition new (destination : DestinationDefinition.t ActionDefinition)
  : Destination.t :=
  let this :=
    {| Destination.name := DestinationDefinition.name destination;
       Destination.authentication := DestinationDefinition.authentication destination;
       Destination.extendRequest := DestinationDefinition.extendRequest destination;
       Destination.actions := ∅;
       Destination.settingsSchema :=
         fields ← DestinationDefinition.authentication destination
                  ≫= Authentication.fields;
         Some (executeStep (fieldsToJsonSchema fields)) |} in
  map_fold (fun action definition this => partnerAction this action definition)
    this (DestinationDefinition.actions destination).

End Defs.
End Construction.

(** ** A number model for the examples

    The integers, written as plain digit sequences; any other text reads
    as [NaN], here [None]. *)
Module IntegerNumbers.

Definition digitValue (c : ascii) : option Z :=
  if Lexer.isDigit c then Some (Z.of_N (N_of_ascii c) - 48)%Z else None.

Fixpoint readDigits (text : string) (acc : Z) : option Z :=
  match text with
  | EmptyString => Some acc
  | String c rest =>
      match digitValue c with
      | Some d => readDigits rest (10 * acc + d)%Z
      | None => None
      end
  end.

Definition read (text : string) : option Z :=
  if String.eqb text "" then None else readDigits text 0%Z.

Fixpoint digitsOf (fuel : nat) (n : Z) (acc : string) : string :=
  match fuel with
  | O => acc
  | S fuel =>
      let acc := String (ascii_of_N (Z.to_N (n mod 10) + 48)) acc in
      if (n <? 10)%Z then acc else digitsOf fuel (n / 10)%Z acc
  end.

Definition show (n : option Z) : string :=
  match n with
  | None => "NaN"
  | Some z =>
      if (z <? 0)%Z then "-" +:+ digitsOf (S (Z.to_nat (- z))) (- z)%Z ""
      else digitsOf (S (Z.to_nat z)) z ""
  end.

Definition ops : JsNumberOps :=
  {| JsNumber := option Z;
     Number := read;
     NumberToString := show;
     number_truthy := fun n => match n with
                               | Some z => negb (z =? 0)%Z
                               | None => false
                               end;
     number_eqb := fun a b => match a, b with
                              | Some x, Some y => (x =? y)%Z
                              | _, _ => false
                              end;
     number_ltb := fun a b => match a, b with
                              | Some x, Some y => (x <? y)%Z
                              | _, _ => false
                              end |}.

End IntegerNumbers.

(** ** Token streams of the examples *)

(** The tokens of the source [properties.a.b]. *)
Definition threeSegmentPath : list Token :=
  [ {| type := TokenType.Ident; value := "properties" |};
    {| type := TokenType.Dot; value := "." |};
    {| type := TokenType.Ident; value := "a" |};
    {| type := TokenType.Dot; value := "." |};
    {| type := TokenType.Ident; value := "b" |};
    eosToken ].

(** The tokens of [match(field, literal)], after a [!] when [negated]. *)
Definition matchCall (negated : bool) (field literal : string) : list Token :=
  (if negated then [ {| type := TokenType.Operator; value := "!" |} ] else [])
  ++ [ {| type := TokenType.Ident; value := "match" |};
       {| type := TokenType.ParenLeft; value := "(" |};
       {| type := TokenType.Ident; value := field |};
       {| type := TokenType.Comma; value := "," |};
       {| type := TokenType.String; value := q literal |};
       {| type := TokenType.ParenRight; value := ")" |};
       eosToken ].

(** ** A destination, events and settings of the examples *)

Module Examples.
Section Defs.
Context `{JsNumberOps}.

(** No example holds its subscriptions as a string, so none parses JSON. *)
Definition noJson (text : string) : Outcome JSON :=
  Throw {| JsError.name := "SyntaxError";
           JsError.message := "Unexpected token in JSON";
           JsError.items := [] |}.

Definition sent : list StepResult.t :=
  [ {| StepResult.output := JStr "sent" |} ].

(** An action whose execution fulfils at tick 5. *)
Definition trackAction : Action.t :=
  {| Action.execute := fun _ _ _ _ => {| settledAt := 5; outcome := Return sent |} |}.

Definition apiKeyNotAString : JsError.t :=
  {| JsError.name := "AggregateAjvError";
     JsError.message := "API Key should be a string but it was a number.";
     JsError.items :=
       [ {| AjvError.path := "$.apiKey";
            AjvError.message := "API Key should be a string but it was a number." |} ] |}.

(** A settings schema with one string field, [apiKey]. *)
Definition apiKeySchema (settings : JSONObject) : Outcome unit :=
  match settings !! "apiKey" with
  | Some (JStr _) => Return tt
  | _ => Throw apiKeyNotAString
  end.

Definition unauthorized : JsError.t :=
  {| JsError.name := "HTTPError";
     JsError.message := "Response code 401 (Unauthorized)";
     JsError.items := [] |}.

(** A scheme whose test request is refused unless the key is [secret]. *)
Definition apiKeyScheme : Authentication.t :=
  {| Authentication.scheme := "custom";
     Authentication.fields :=
       Some {[ "apiKey" := JObj {[ "label" := JStr "API Key";
                                   "type" := JStr "string" ]} ]};
     Authentication.testAuthentication :=
       Some (fun _ settings =>
               match settings !! "apiKey" with
               | Some (JStr "secret") => Return tt
               | _ => Throw unauthorized
               end) |}.

Definition shop : Destination.t :=
  {| Destination.name := "shop";
     Destination.authentication := Some apiKeyScheme;
     Destination.extendRequest := None;
     Destination.actions := {[ "track" := trackAction ]};
     Destination.settingsSchema := Some apiKeySchema |}.

(** A subscription to track events for the action [slug]. *)
Definition subscriptionTo (slug : string) : JSON :=
  JObj {[ "subscribe" := JStr ("type = " +:+ q "track");
          "partnerAction" := JStr slug ]}.

Definition trackEvent : SegmentEvent := {[ "type" := JStr "track" ]}.

Definition twoSubscriptions : JSONObject :=
  {[ "subscriptions" := JArr [subscriptionTo "nope"; subscriptionTo "track"];
     "apiKey" := JStr "secret" ]}.

Definition oneSubscription : JSONObject :=
  {[ "subscription" := subscriptionTo "track";
     "apiKey" := JStr "secret" ]}.

Definition numericKey : JSONObject := {[ "apiKey" := JNum (Number "5") ]}.

Definition wrongKey : JSONObject := {[ "apiKey" := JStr "guess" ]}.

End Defs.
End Examples.

(** ** More events, settings and destinations *)

Module Samples.
Section Defs.
Context `{JsNumberOps}.

Definition identifyEvent : SegmentEvent := {[ "type" := JStr "identify" ]}.

(** Settings that hold their subscriptions as text. *)
Definition textSubscriptions : JSONObject :=
  {[ "subscriptions" := JStr "[oops"; "apiKey" := JStr "secret" ]}.

Definition noRegion : JsError.t :=
  {| JsError.name := "Error";
     JsError.message := "No region is configured";
     JsError.items := [] |}.

(** A destination whose request extension throws. *)
Definition regional : Destination.t :=
  {| Destination.name := "regional";
     Destination.authentication := Some Examples.apiKeyScheme;
     Destination.extendRequest := Some (fun _ => Throw noRegion);
     Destination.actions := ∅;
     Destination.settingsSchema := None |}.

(** The definition of a destination without authentication, its actions
    given by what they do. *)
Definition openDefinition : DestinationDefinition.t Action.t :=
  {| DestinationDefinition.name := "open";
     DestinationDefinition.extendRequest := None;
     DestinationDefinition.authentication := None;
     DestinationDefinition.actions := {[ "track" := Examples.trackAction ]} |}.

Definition asDefined (definition : Action.t)
    (extendRequest : option (JSONObject -> Outcome JSON)) : Action.t :=
  definition.

Definition schemaOf (fields : JSONObject) : JSONObject := fields.

Definition acceptAll (schema settings : JSONObject) : Outcome unit := Return tt.

Definition openDestination : Destination.t :=
  Construction.new Action.t JSONObject asDefined schemaOf acceptAll openDefinition.

Definition trackInput : Destination.EventInput :=
  {| Destination.event := Examples.trackEvent;
     Destination.mapping := JObj ∅;
     Destination.settings := Examples.wrongKey |}.

(** The headers of a page view without a user agent. *)
Definition pageHeaders : gmap string JsValue :=
  {[ "Referer" := Some (JStr "https://shop.example/");
     "User-Agent" := None ]}.

End Defs.
End Samples.

(** * Properties *)

(** ** The normalizer is one pass over the stream *)

Lemma isPathTriple_head (pre suf : list Token) (current : Token) :
  isPathTriple (pre ++ current :: suf) (length pre) current =
  if hasType current TokenType.Ident then
    match suf with
    | [] => Throw (TypeError_undefined "type")
    | next :: suf' =>
        if hasType next TokenType.Dot then
          match suf' with
          | [] => Throw (TypeError_undefined "type")
          | afterNext :: _ => Return (hasType afterNext TokenType.Ident)
          end
        else Return false
    end
  else Return false.
Proof.
  unfold isPathTriple.
  destruct (hasType current _); [|done].
  rewrite lookup_app_r by lia.
  replace (length pre + 1 - length pre) with 1 by lia.
  destruct suf as [|next suf']; simpl; [done|].
  destruct (hasType next _); [|done].
  rewrite lookup_app_r by lia.
  replace (length pre + 2 - length pre) with 2 by lia.
  by destruct suf'.
Qed.

Lemma normalize_loop_collapse (fuel : nat) :
  forall (pre suf acc : list Token),
    length suf < fuel ->
    normalize_loop fuel (pre ++ suf) (length pre) acc =
    Some (out ← collapse suf; Return (acc ++ out)).
Proof.
  induction fuel as [|fuel IH]; intros pre suf acc Hfuel; [lia|].
  destruct suf as [|current suf].
  - simpl. rewrite lookup_ge_None_2 by (rewrite length_app; simpl; lia).
    by rewrite app_nil_r.
  - cbn [normalize_loop].
    rewrite lookup_app_r by lia. rewrite Nat.sub_diag. cbn [lookup list_lookup].
    rewrite isPathTriple_head. cbn [collapse].
    assert (Hstep : normalize_loop fuel (pre ++ current :: suf) (length pre + 1)
                      (acc ++ [current])
                    = Some (out ← (out ← collapse suf; Return (current :: out));
                            Return (acc ++ out))).
    { replace (pre ++ current :: suf) with ((pre ++ [current]) ++ suf)
        by (by rewrite <- app_assoc).
      replace (length pre + 1) with (length (pre ++ [current]))
        by (rewrite length_app; simpl; lia).
      rewrite IH by (simpl in Hfuel; lia).
      destruct (collapse suf); simpl; [|done].
      by rewrite <- app_assoc. }
    destruct (hasType current TokenType.Ident); [|exact Hstep].
    destruct suf as [|next suf']; [done|].
    destruct (hasType next TokenType.Dot); [|exact Hstep].
    destruct suf' as [|afterNext suf'']; [done|].
    destruct (hasType afterNext TokenType.Ident); [|exact Hstep].
    rewrite !lookup_app_r by lia.
    replace (length pre + 1 - length pre) with 1 by lia.
    replace (length pre + 2 - length pre) with 2 by lia.
    cbn [lookup list_lookup from_option].
    replace (pre ++ current :: next :: afterNext :: suf'')
      with ((pre ++ [current; next; afterNext]) ++ suf'')
      by (by rewrite <- app_assoc).
    replace (length pre + 3) with (length (pre ++ [current; next; afterNext]))
      by (rewrite length_app; simpl; lia).
    rewrite IH by (simpl in Hfuel; lia).
    destruct (collapse suf''); simpl; [|done].
    by rewrite <- app_assoc.
Qed.

Lemma endsWithEOS_cons (t : Token) (rest : list Token) :
  rest <> [] -> endsWithEOS (t :: rest) = endsWithEOS rest.
Proof. unfold endsWithEOS. destruct rest; [done|]. by rewrite last_cons_cons. Qed.

Lemma endsWithEOS_single (t : Token) :
  endsWithEOS [t] = hasType t TokenType.EOS.
Proof. done. Qed.

Lemma hasType_excl (t : Token) (a b : TokenType.t) :
  a <> b -> hasType t a = true -> hasType t b = false.
Proof.
  unfold hasType. intros Hab.
  destruct (type t), a, b; done.
Qed.

Lemma textOf_cons (t : Token) (rest : list Token) :
  textOf (t :: rest) = value t +:+ textOf rest.
Proof. done. Qed.

Lemma string_app_cons (x : ascii) (a b : string) :
  String x a +:+ b = String x (a +:+ b).
Proof. reflexivity. Qed.

Lemma string_app_nil (b : string) : EmptyString +:+ b = b.
Proof. reflexivity. Qed.

Lemma string_app_assoc (a b c : string) : (a +:+ b) +:+ c = a +:+ (b +:+ c).
Proof.
  induction a as [|x a IH]; [done|].
  by rewrite !string_app_cons, IH.
Qed.

Lemma collapse_eos (n : nat) :
  forall tokens : list Token,
    length tokens <= n ->
    endsWithEOS tokens = true ->
    exists out, collapse tokens = Return out
                /\ textOf out = textOf tokens
                /\ length out <= length tokens.
Proof.
  induction n as [|n IH]; intros tokens Hn Heos.
  - destruct tokens; [done|simpl in Hn; lia].
  - destruct tokens as [|current rest]; [done|].
    simpl in Hn.
    assert (Hcopy : rest <> [] ->
              exists out, (out ← collapse rest; Return (current :: out)) = Return out
                          /\ textOf out = textOf (current :: rest)
                          /\ length out <= length (current :: rest)).
    { intros Hne. destruct (IH rest) as (out & -> & Htext & Hlen); [lia| |].
      - by rewrite <- (endsWithEOS_cons current).
      - exists (current :: out). simpl. rewrite Htext. split_and!; [done|done|lia]. }
    cbn [collapse].
    destruct (hasType current TokenType.Ident) eqn:Hident.
    + destruct rest as [|next rest'].
      { rewrite endsWithEOS_single in Heos.
        by rewrite (hasType_excl current TokenType.Ident TokenType.EOS) in Heos. }
      destruct (hasType next TokenType.Dot) eqn:Hdot; [|by apply Hcopy].
      destruct rest' as [|afterNext rest''].
      { rewrite endsWithEOS_cons, endsWithEOS_single in Heos by done.
        by rewrite (hasType_excl next TokenType.Dot TokenType.EOS) in Heos. }
      destruct (hasType afterNext TokenType.Ident) eqn:Hident'; [|by apply Hcopy].
      destruct rest'' as [|t rest'''].
      { rewrite !endsWithEOS_cons, endsWithEOS_single in Heos by done.
        by rewrite (hasType_excl afterNext TokenType.Ident TokenType.EOS) in Heos. }
      destruct (IH (t :: rest''')) as (out & -> & Htext & Hlen).
      * simpl in *. lia.
      * by rewrite !endsWithEOS_cons in Heos by done.
      * eexists. split; [done|]. split.
        -- rewrite !textOf_cons, Htext. simpl value.
           by rewrite !string_app_assoc.
        -- simpl in *. lia.
    + destruct rest as [|next rest']; [|by apply Hcopy].
      exists [current]. simpl. done.
Qed.

Lemma normalize_collapse (tokens : list Token) :
  normalize tokens = collapse tokens.
Proof.
  unfold normalize.
  pose proof (normalize_loop_collapse (S (length tokens)) [] tokens []) as Hloop.
  cbn [app length] in Hloop. rewrite Hloop by lia.
  simpl. by destruct (collapse tokens).
Qed.

(** The bound of [normalize] is never reached. *)
Lemma normalize_within_bound (tokens : list Token) :
  normalize_loop (S (length tokens)) tokens 0 [] = Some (normalize tokens).
Proof.
  rewrite normalize_collapse.
  pose proof (normalize_loop_collapse (S (length tokens)) [] tokens []) as Hloop.
  cbn [app length] in Hloop. rewrite Hloop by lia.
  simpl. by destruct (collapse tokens).
Qed.

(** C5, as stated, fails: the tokens of [properties.a.b] normalize to the
    three tokens [properties.a], [.], [b] (and the end of stream), which
    are an [ident, dot, ident] triple; the path does not collapse to one
    ident. *)
Lemma normalize_three_segments :
  lex "properties.a.b" = Return threeSegmentPath
  /\ normalize threeSegmentPath
     = Return [ {| type := TokenType.Ident; value := "properties.a" |};
                {| type := TokenType.Dot; value := "." |};
                {| type := TokenType.Ident; value := "b" |};
                eosToken ]
  /\ hasPathTriple [ {| type := TokenType.Ident; value := "properties.a" |};
                     {| type := TokenType.Dot; value := "." |};
                     {| type := TokenType.Ident; value := "b" |};
                     eosToken ] = true.
Proof. split_and?; vm_compute; reflexivity. Qed.

(** A two-segment path becomes one ident. *)
Lemma normalize_two_segments :
  lex "properties.email"
  = Return [ {| type := TokenType.Ident; value := "properties" |};
             {| type := TokenType.Dot; value := "." |};
             {| type := TokenType.Ident; value := "email" |};
             eosToken ]
  /\ (lexed ← lex "properties.email"; normalize lexed)
     = Return [ {| type := TokenType.Ident; value := "properties.email" |};
                eosToken ].
Proof. split_and?; vm_compute; reflexivity. Qed.

(** C5 (amended): on every token stream that ends with the end-of-stream
    token, [normalize] returns, and what it returns is one left-to-right
    pass: at the scan position an [ident, dot, ident] triple becomes one
    ident whose value concatenates the three values and the scan resumes
    after the triple, any other token is copied.  The pass keeps the
    text of the stream and never lengthens it; a merged token is not
    scanned again. *)
Theorem normalize_single_pass (tokens : list Token) :
  endsWithEOS tokens = true ->
  exists out,
    normalize tokens = Return out
    /\ collapse tokens = Return out
    /\ textOf out = textOf tokens
    /\ length out <= length tokens.
Proof.
  intros Heos.
  destruct (collapse_eos (length tokens) tokens) as (out & Hout & Htext & Hlen);
    [lia|done|].
  exists out. by rewrite normalize_collapse.
Qed.

Lemma normalize_single_pass_witness :
  endsWithEOS threeSegmentPath = true
  /\ exists out,
       normalize threeSegmentPath = Return out
       /\ collapse threeSegmentPath = Return out
       /\ textOf out = textOf threeSegmentPath
       /\ length out <= length threeSegmentPath.
Proof.
  split; [reflexivity|].
  apply (normalize_single_pass threeSegmentPath). reflexivity.
Defined.

(** ** String built-ins on a quoted literal *)

Lemma endsWith_app (suffix a : string) : Str.endsWith suffix (a +:+ suffix) = true.
Proof.
  induction a as [|c a IH].
  - rewrite string_app_nil. destruct suffix; simpl; [done|].
    by rewrite Ascii.eqb_refl, String.eqb_refl.
  - rewrite string_app_cons. simpl. by rewrite IH, orb_true_r.
Qed.

Lemma dropLeadingQuote_q (x : string) :
  Str.dropLeadingQuote (q x) = x +:+ String Str.quote EmptyString.
Proof. done. Qed.

Lemma dropTrailingQuote_app (x : string) :
  Str.dropTrailingQuote (x +:+ String Str.quote EmptyString) = x.
Proof.
  induction x as [|c x IH]; [done|].
  rewrite string_app_cons. simpl. rewrite IH.
  by destruct x.
Qed.

Lemma sliceInit_app (x : string) (c : ascii) :
  Str.sliceInit (x +:+ String c EmptyString) = x.
Proof.
  induction x as [|d x IH]; [done|].
  rewrite string_app_cons. simpl. rewrite IH.
  by destruct x.
Qed.

Lemma q_star (body : string) :
  q (body +:+ "*")
  = String Str.quote body +:+ String Str.star (String Str.quote EmptyString).
Proof.
  unfold q. rewrite string_app_cons. f_equal.
  by rewrite string_app_assoc.
Qed.

(** ** The parser *)

Section ParserFacts.
Context `{JsNumberOps}.

Lemma nodesOk_app (a b : list Node) : nodesOk a -> nodesOk b -> nodesOk (a ++ b).
Proof. unfold nodesOk. rewrite forallb_app. by intros -> ->. Qed.

Lemma nodesOk_nil : nodesOk [].
Proof. done. Qed.

Ltac step_cases :=
  repeat (case_match; simplify_eq/=; try done).

Ltac nodes_grow :=
  rewrite <- ?app_assoc; simpl;
  first [ by (exists []; rewrite ?app_nil_r)
        | by (eexists; split; [reflexivity|]) ].

Lemma parseFqlFunction_inv (name : string) (nodes : list Node)
    (tokens : list Token) (negate : bool) (nodes' : list Node)
    (tokens' : list Token) :
  parseFqlFunction name nodes tokens negate = Return (nodes', tokens') ->
  length tokens' <= length tokens
  /\ exists added, nodes' = nodes ++ added /\ nodesOk added.
Proof.
  unfold parseFqlFunction, nodesOk.
  destruct (String.eqb_spec name "contains") as [->|_];
  destruct tokens as [|t1 [|t2 [|t3 [|t4 [|t5 rest]]]]]; simpl;
    intros Hrun; try discriminate; step_cases;
    (split; [simpl; lia|]); nodes_grow.
Qed.


Lemma identStep_inv (token : Token) (nodes : list Node) (tokens : list Token)
    (nodes' : list Node) (tokens' : list Token) :
  identStep token nodes tokens = Return (nodes', tokens') ->
  length tokens' <= length tokens
  /\ exists added, nodes' = nodes ++ added /\ nodesOk added.
Proof.
  unfold identStep.
  destruct (hasType token TokenType.Ident);
    [|intros [= <- <-]; split; [lia|by exists []; rewrite app_nil_r]].
  destruct (isFqlFunction token) eqn:Hfn.
  - (* a function name is no key of the table *)
    assert (Hkey : tokenToConditionType (Str.firstSegment (value token)) = None).
    { unfold isFqlFunction, Str.includes in Hfn. simpl in Hfn.
      apply andb_true_iff in Hfn as [_ Hfn].
      rewrite orb_false_r in Hfn. apply orb_true_iff in Hfn.
      destruct Hfn as [Hfn|Hfn]; apply String.eqb_eq in Hfn; by rewrite Hfn. }
    rewrite Hkey. simpl. apply parseFqlFunction_inv.
  - intros Hrun.
    destruct tokens as [|t1 [|t2 rest]]; simpl in Hrun; step_cases;
      (split; [simpl; lia|]); nodes_grow.
Qed.

Lemma negationStep_inv (token : Token) (nodes : list Node) (tokens : list Token)
    (nodes' : list Node) (tokens' : list Token) :
  negationStep token nodes tokens = Return (nodes', tokens') ->
  length tokens' <= length tokens
  /\ exists added, nodes' = nodes ++ added /\ nodesOk added.
Proof.
  unfold negationStep. intros Hrun.
  destruct (hasType token TokenType.Operator && String.eqb (value token) "!");
    [|simplify_eq; split; [lia|by exists []; rewrite app_nil_r]].
  destruct tokens as [|first rest]; [done|]. simpl in Hrun.
  destruct (isFqlFunction first).
  - apply parseFqlFunction_inv in Hrun as [Hlen Hnodes].
    split; [simpl; lia|done].
  - simplify_eq. split; [lia|by exists []; rewrite app_nil_r].
Qed.

Lemma collectGroup_inv (tokens : list Token) :
  forall groupTokens inner rest,
    collectGroup tokens groupTokens = Return (inner, rest) ->
    length inner + length rest + 1 = length groupTokens + length tokens.
Proof.
  induction tokens as [|t tokens IH]; intros groupTokens inner rest; [done|].
  simpl. destruct (hasType t TokenType.ParenRight).
  - intros [= <- <-]. lia.
  - intros Hrun. apply IH in Hrun. rewrite length_app in Hrun. simpl in Hrun. lia.
Qed.

Lemma finish_ok (nodes : list Node) (operator : string) :
  nodesOk nodes -> wellGroupedNode wellGrouped (finish nodes operator) = true.
Proof.
  unfold finish, nodesOk. intros Hok.
  destruct (decide (1 < length nodes)) as [Hlen|Hlen].
  - simpl. rewrite Hok, andb_true_r. by apply bool_decide_eq_true.
  - destruct nodes as [|n [|n' nodes]]; simpl in *; [done| |lia].
    by rewrite andb_true_r in Hok.
Qed.

Lemma parse_loop_inv (fuel : nat) :
  forall (stream : list Token) (nodes : list Node) (operator : string),
    length stream < fuel ->
    nodesOk nodes ->
    exists r,
      parse_loop fuel (fst (shift stream)) (snd (shift stream)) nodes operator
      = Some r
      /\ (forall nodes' operator', r = Return (nodes', operator') -> nodesOk nodes').
Proof.
  induction fuel as [|fuel IH]; intros stream nodes operator Hfuel Hok; [lia|].
  destruct stream as [|token tokens]; simpl.
  { eexists; split; [done|]. by intros ?? [= <- <-]. }
  destruct (hasType token TokenType.EOS).
  { eexists; split; [done|]. by intros ?? [= <- <-]. }
  destruct (identStep token nodes tokens) as [[nodes1 tokens1]|e] eqn:Hident;
    [|by eexists].
  apply identStep_inv in Hident as (Hlen1 & added1 & -> & Hok1).
  destruct (negationStep token (nodes ++ added1) tokens1)
    as [[nodes2 tokens2]|e] eqn:Hneg; [|by eexists].
  apply negationStep_inv in Hneg as (Hlen2 & added2 & -> & Hok2).
  assert (Hok' : nodesOk ((nodes ++ added1) ++ added2))
    by (by repeat apply nodesOk_app).
  simpl in Hfuel.
  destruct (hasType token TokenType.ParenLeft).
  - destruct (collectGroup tokens2 []) as [[inner rest]|e] eqn:Hgroup;
      [|by eexists].
    apply collectGroup_inv in Hgroup. simpl in Hgroup.
    destruct (IH (inner ++ [eosToken]) [] "and") as (r & -> & Hr);
      [rewrite length_app; simpl; lia|done|].
    destruct r as [[innerNodes innerOperator]|e]; [|by eexists].
    apply IH; [lia|].
    apply nodesOk_app; [done|].
    unfold nodesOk. simpl. rewrite andb_true_r.
    apply finish_ok. by eapply Hr.
  - apply IH; [lia|done].
Qed.

(** The bound of [parse] is never reached. *)
Lemma parse_within_bound (tokens : list Token) :
  parse_loop (S (length tokens)) (fst (shift tokens)) (snd (shift tokens)) [] "and"
  = Some (parseScope tokens).
Proof.
  unfold parseScope.
  destruct (parse_loop_inv (S (length tokens)) tokens [] "and")
    as (r & -> & _); [lia|done|done].
Qed.

Lemma parseScope_ok (tokens : list Token) (nodes : list Node) (operator : string) :
  parseScope tokens = Return (nodes, operator) -> nodesOk nodes.
Proof.
  unfold parseScope.
  destruct (parse_loop_inv (S (length tokens)) tokens [] "and")
    as (r & -> & Hr); [lia|done|].
  simpl. intros ->. by eapply Hr.
Qed.

(** Every group of an AST that [parse] returns has more than one child. *)
Lemma parse_wellGrouped (tokens : list Token) (ast : Condition) :
  parse tokens = Return (Some ast) -> wellGrouped ast = true.
Proof.
  unfold parse.
  destruct (parseScope tokens) as [[nodes operator]|e] eqn:Hscope; [|done].
  simpl. intros [= Hast].
  pose proof (finish_ok nodes operator (parseScope_ok _ _ _ Hscope)) as Hok.
  by rewrite Hast in Hok.
Qed.

Lemma finish_cases (nodes : list Node) (operator : string) :
  finish nodes operator
  = match nodes with
    | [] => None
    | [node] => node
    | _ :: _ :: _ => Some (GroupCondition operator nodes)
    end.
Proof. by destruct nodes as [|n [|n' nodes]]. Qed.

(** C10 (amended): for a source that lexes, normalizes and parses to the
    nodes of its top-level scope, [parseFql] returns the error of reading
    [type] of [undefined] exactly when the scope has no node at all or
    one node that is [undefined], as for the empty source, a source of
    conditional words, and one empty pair of parentheses.  A scope of
    two or more nodes that are all [undefined], as for two empty pairs
    of parentheses, holds no condition either, and [parseFql] returns
    the group of those nodes, not an error. *)
Theorem parseFql_no_condition_is_error (fql : string) (nodes : list Node)
    (operator : string) :
  (lexed ← lex fql; tokens ← normalize lexed; parseScope tokens)
  = Return (nodes, operator) ->
  (parseFql fql = ErrorCondition (TypeError_undefined "type")
   <-> nodes = [] \/ nodes = [None])
  /\ (Forall (eq None) nodes ->
      parseFql fql
      = if decide (1 < length nodes)
        then Valid (GroupCondition operator nodes)
        else ErrorCondition (TypeError_undefined "type")).
Proof.
  unfold parseFql, parse. intros Hscope.
  destruct (lex fql) as [lexed|e]; [|done]. simpl in Hscope |- *.
  destruct (normalize lexed) as [tokens|e]; [|done]. simpl in Hscope |- *.
  rewrite Hscope. cbn [mbind Outcome_bind]. rewrite finish_cases.
  destruct nodes as [|[c|] [|node nodes]]; simpl.
  - split; [split; [intros _; left; reflexivity|done]|done].
  - split.
    + split; [by destruct (isGroup c)|by intros [|]].
    + intros Hall. apply Forall_cons in Hall as [? _]. done.
  - split.
    + split; [done|by intros [|]].
    + intros Hall. apply Forall_cons in Hall as [? _]. done.
  - split; [split; [intros _; right; reflexivity|done]|done].
  - split; [split; [done|by intros [|]]|].
    intros _. first [done|case_decide; [done|simpl in *; lia]].
Qed.

(** C3 does not hold of the code: for [contains(event)] the closing
    parenthesis is skipped as the comma and the end-of-stream token is
    taken as the second argument, so the check for a missing second
    argument passes and [parseFql] returns a condition on the value
    [eos]. *)
Theorem parseFql_contains_one_argument :
  lex "contains(event)"
  = Return [ {| type := TokenType.Ident; value := "contains" |};
             {| type := TokenType.ParenLeft; value := "(" |};
             {| type := TokenType.Ident; value := "event" |};
             {| type := TokenType.ParenRight; value := ")" |};
             eosToken ]
  /\ parseFql "contains(event)"
     = Valid (GroupCondition "and" [Some (EventCondition "contains" "eos")]).
Proof. split_and?; vm_compute; reflexivity. Qed.

(** C7: [properties.age != null] parses to an event-property condition
    on [age] with the operator [exists] and no value, and
    [properties.age = null] to the same with [not_exists]; [parseFql]
    returns each as the only child of an [and] group. *)
Theorem parse_null_comparisons :
  (lexed ← lex "properties.age != null"; tokens ← normalize lexed; parse tokens)
  = Return (Some (EventPropertyCondition "age" "exists" None))
  /\ (lexed ← lex "properties.age = null"; tokens ← normalize lexed; parse tokens)
     = Return (Some (EventPropertyCondition "age" "not_exists" None))
  /\ parseFql "properties.age != null"
     = Valid (GroupCondition "and" [Some (EventPropertyCondition "age" "exists" None)])
  /\ parseFql "properties.age = null"
     = Valid (GroupCondition "and" [Some (EventPropertyCondition "age" "not_exists" None)]).
Proof. split_and?; vm_compute; reflexivity. Qed.

Lemma getTokenValue_prefix_literal (body : string) :
  Str.sliceInit (toStr (getTokenValue
     {| type := TokenType.String; value := q (body +:+ "*") |})) = body.
Proof.
  unfold getTokenValue, hasType.
  cbn -[q Str.dropLeadingQuote Str.dropTrailingQuote Str.sliceInit String.append].
  by rewrite dropLeadingQuote_q, dropTrailingQuote_app, sliceInit_app.
Qed.

Lemma parse_match_prefix (negated : bool) (body : string) :
  parse (matchCall negated "event" (body +:+ "*"))
  = Return (Some (EventCondition
                    (if negated then "not_starts_with" else "starts_with") body)).
Proof.
  pose proof (getTokenValue_prefix_literal body) as Hvalue.
  pose proof (endsWith_app (String Str.star (String Str.quote EmptyString))
                (String Str.quote body)) as Hends.
  rewrite <- q_star in Hends.
  destruct negated; unfold parse, parseScope, matchCall;
    cbn -[q Str.endsWith Str.sliceInit Str.slice1 getTokenValue String.append];
    unfold parseFqlFunction;
    cbn -[q Str.endsWith Str.sliceInit Str.slice1 getTokenValue String.append];
    rewrite Hends, Hvalue; done.
Qed.

(** C8: [!match(event, Qfoo*Q)], with Q the double quote, parses to an
    event condition with the operator [not_starts_with] and the value
    [foo].  In general a string literal that ends in a star selects the
    [starts_with] family and loses that star, and a [!] before the call
    selects the negated operator. *)
Theorem parse_negated_match_prefix :
  lex ("!match(event, " +:+ q "foo*" +:+ ")") = Return (matchCall true "event" "foo*")
  /\ (lexed ← lex ("!match(event, " +:+ q "foo*" +:+ ")");
      tokens ← normalize lexed; parse tokens)
     = Return (Some (EventCondition "not_starts_with" "foo"))
  /\ (forall (negated : bool) (body : string),
        parse (matchCall negated "event" (body +:+ "*"))
        = Return (Some (EventCondition
                          (if negated then "not_starts_with" else "starts_with")
                          body))).
Proof.
  split_and!; [vm_compute; reflexivity|vm_compute; reflexivity|].
  apply parse_match_prefix.
Qed.

End ParserFacts.

(** ** Promises *)

Lemma firstRejection_None {A} (promises : list (Promise A)) :
  (forall p, p ∈ promises -> returns (outcome p) = true) ->
  firstRejection promises = None
  /\ map outcome promises = map Return (fulfilledValues promises).
Proof.
  induction promises as [|p promises IH]; intros Hall; [done|].
  destruct IH as [IH1 IH2]; [intros p' Hp'; apply Hall; by right|].
  pose proof (Hall p (list_elem_of_here _ _)) as Hp.
  unfold fulfilledValues in *. simpl. rewrite IH1.
  destruct (outcome p) eqn:Hout; [|done].
  simpl. by rewrite IH2.
Qed.

Lemma firstRejection_spec {A} (promises : list (Promise A)) :
  match firstRejection promises with
  | None => forall p, p ∈ promises -> returns (outcome p) = true
  | Some (t, e) =>
      (exists failed, failed ∈ promises /\ settledAt failed = t
                      /\ outcome failed = Throw e)
      /\ (forall p, p ∈ promises -> returns (outcome p) = false -> t <= settledAt p)
  end.
Proof.
  induction promises as [|p0 promises IH]; simpl.
  { intros p Hp. by inversion Hp. }
  destruct (outcome p0) as [a|e0] eqn:Hout0.
  - destruct (firstRejection promises) as [[t e]|].
    + destruct IH as [(failed & Hin & Ht & He) Hmin]. split.
      * exists failed. split; [by right|done].
      * intros p Hp Hrej. apply elem_of_cons in Hp as [->|Hp].
        -- by rewrite Hout0 in Hrej.
        -- by apply Hmin.
    + intros p Hp. apply elem_of_cons in Hp as [->|Hp].
      * by rewrite Hout0.
      * by apply IH.
  - destruct (firstRejection promises) as [[t e]|].
    + destruct IH as [(failed & Hin & Ht & He) Hmin].
      destruct (Nat.leb_spec (settledAt p0) t) as [Hle|Hlt].
      * split; [exists p0; split; [by left|done]|].
        intros p Hp Hrej. apply elem_of_cons in Hp as [->|Hp]; [done|].
        specialize (Hmin p Hp Hrej). lia.
      * split; [exists failed; split; [by right|done]|].
        intros p Hp Hrej. apply elem_of_cons in Hp as [->|Hp]; [lia|].
        by apply Hmin.
    + split; [exists p0; split; [by left|done]|].
      intros p Hp Hrej. apply elem_of_cons in Hp as [->|Hp]; [done|].
      specialize (IH p Hp). congruence.
Qed.

Lemma settledAt_le_max {A} (promises : list (Promise A)) (p : Promise A) :
  p ∈ promises -> settledAt p <= foldr Nat.max 0 (map settledAt promises).
Proof.
  induction promises as [|p0 promises IH]; intros Hp; [by inversion Hp|].
  simpl. apply elem_of_cons in Hp as [->|Hp]; [lia|].
  specialize (IH Hp). lia.
Qed.

Lemma elem_of_map {A B} (f : A -> B) (l : list A) (y : B) :
  y ∈ map f l <-> exists x, y = f x /\ x ∈ l.
Proof.
  rewrite list_elem_of_In, in_map_iff. split.
  - intros (x & <- & Hx). exists x. by rewrite list_elem_of_In.
  - intros (x & -> & Hx). exists x. by rewrite <- list_elem_of_In.
Qed.


(** ** The dispatcher *)

Section DestinationFacts.
Context `{JsNumberOps}.
Variable validate : Subscription -> SegmentEvent -> bool.
Variable JSON_parse : string -> Outcome JSON.

Import Destination.

(** C1 (amended): when the settings hold an array of subscriptions,
    [onEvent] fulfils only if every subscription's chain fulfils, and then
    with their results flattened in the order of the subscriptions, after
    the last of them settled.  As soon as one chain rejects, [onEvent]
    rejects with that failure, at that tick, and returns no result.  No
    subscription is cancelled: the observer receives the report of each
    one in both cases. *)
Theorem onEvent_all_or_reject (d : Destination.t) (event : SegmentEvent)
    (settings : JSONObject) (onComplete : bool) (elements : list JSON) :
  getSubscriptions JSON_parse settings = Return (JArr elements) ->
  let runs :=
    map (fun subscription =>
           onSubscription validate d subscription event
             (getDestinationSettings settings) onComplete) elements in
  let result := onEvent validate JSON_parse d event settings onComplete in
  reports result = concat (map reports runs)
  /\ ((forall r, r ∈ runs -> returns (outcome (promise r)) = true) ->
      (exists values,
          map (fun r => outcome (promise r)) runs = map Return values
          /\ outcome (promise result) = Return (concat values))
      /\ forall r, r ∈ runs -> settledAt (promise r) <= settledAt (promise result))
  /\ (forall r, r ∈ runs -> returns (outcome (promise r)) = false ->
      exists failed e,
        failed ∈ runs
        /\ outcome (promise failed) = Throw e
        /\ promise result
           = {| settledAt := settledAt (promise failed); outcome := Throw e |}
        /\ settledAt (promise result) <= settledAt (promise r)).
Proof.
  intros Hsubs runs result.
  assert (Hresult : result =
    {| promise := {| settledAt := settledAt (Promise_all (map promise runs));
                     outcome := results ← outcome (Promise_all (map promise runs));
                                Return (concat results) |};
       reports := concat (map reports runs) |}).
  { unfold result, onEvent. by rewrite Hsubs. }
  split_and!.
  - by rewrite Hresult.
  - intros Hall.
    destruct (firstRejection_None (map promise runs)) as [Hnone Hvalues].
    { intros p (r & -> & Hr)%elem_of_map. by apply Hall. }
    rewrite Hresult. unfold Promise_all. rewrite Hnone. simpl. split.
    + exists (fulfilledValues (map promise runs)). split; [|done].
      by rewrite map_map in Hvalues.
    + intros r Hr. apply settledAt_le_max. apply elem_of_map. by exists r.
  - intros r Hr Hrej.
    pose proof (firstRejection_spec (map promise runs)) as Hspec.
    destruct (firstRejection (map promise runs)) as [[t e]|] eqn:Hfirst.
    + destruct Hspec as [(p & (failed & -> & Hfailed)%elem_of_map & Ht & He) Hmin].
      exists failed, e. rewrite Hresult. unfold Promise_all. rewrite Hfirst. simpl.
      split_and!; [done|done|by rewrite Ht|].
      apply Hmin; [|done]. apply elem_of_map. by exists r.
    + rewrite Hspec in Hrej; [done|]. apply elem_of_map. by exists r.
Qed.


(** What [getDestinationSettings] keeps and drops. *)
Lemma getDestinationSettings_lookup (settings : JSONObject) :
  getDestinationSettings settings !! "subscription" = settings !! "subscription"
  /\ getDestinationSettings settings !! "subscriptions" = None
  /\ getDestinationSettings settings !! "subcription" = None.
Proof.
  unfold getDestinationSettings. split_and!.
  - by rewrite !lookup_delete_ne.
  - rewrite lookup_delete_ne by done. by rewrite lookup_delete_eq.
  - by rewrite lookup_delete_eq.
Qed.

(** C9: a subscription reports to the observer exactly once, with the
    state [done] or [errored]; the state is [done] exactly when the
    filter matched the event and the execution of the action completed
    without throwing, that is, [executeAction] on the [partnerAction]
    and the input of the subscription returned a promise and that
    promise fulfilled; so a [subscribe] that is no string, and a filter
    that does not match, are reported as [errored].  When the filter
    matched, the run settles as the execution does: a throw of
    [executeAction] and a rejection of its promise reject the run with
    the same error and are reported as [errored] with output [null]. *)
Theorem onSubscription_state (d : Destination.t) (subscription : JSON)
    (event : SegmentEvent) (settings : JSONObject) :
  subscription <> JNull ->
  let run := onSubscription validate d subscription event settings true in
  let matched :=
    match field subscription "subscribe" with
    | Some (JStr fql) => validate (parseFql fql) event
    | _ => false
    end in
  let execution :=
    executeAction d (field subscription "partnerAction")
      (subscriptionInput subscription event settings) in
  exists stats,
    reports run = [stats]
    /\ (state stats = "done" \/ state stats = "errored")
    /\ (state stats = "done"
        <-> matched = true /\ returns (outcome (promise run)) = true)
    /\ (isString (field subscription "subscribe") = false -> state stats = "errored")
    /\ (matched = false -> state stats = "errored")
    /\ (state stats = "done"
        <-> matched = true
            /\ exists pending results,
                 execution = Return pending /\ outcome pending = Return results)
    /\ (matched = true ->
        match execution with
        | Throw e =>
            state stats = "errored" /\ output stats = None
            /\ promise run = {| settledAt := 0; outcome := Throw e |}
        | Return pending =>
            promise run = pending
            /\ match outcome pending with
               | Return results =>
                   state stats = "done" /\ output stats = Some results
               | Throw e => state stats = "errored" /\ output stats = None
               end
        end).
Proof.
  intros Hnull run matched execution. subst run matched execution.
  unfold onSubscription, subscriptionInput.
  destruct subscription as [| | | | |fields]; try done;
    try (eexists; split; [reflexivity|]; simpl; split_and!;
         [by right|split; [done|by intros []]|done|done
         |split; [done|by intros []]|done]).
  destruct (field (JObj fields) "subscribe") as [[| | |fql| |]|] eqn:Hsub;
    try (eexists; split; [reflexivity|]; simpl; split_and!;
         [by right|split; [done|by intros []]|done|done
         |split; [done|by intros []]|done]).
  destruct (validate (parseFql fql) event) eqn:Hmatch; simpl.
  - destruct (executeAction d _ _) as [pending|e]; simpl.
    + destruct pending as [tick result]. simpl.
      destruct result as [results|e]; simpl;
        eexists; (split; [reflexivity|]); simpl; split_and!;
        try done; try (by left); try (by right);
        try (split; [done|by intros []]).
      * split; [intros _; split; [done|by eexists _, _]|done].
      * split; [done|by intros [_ (? & ? & [= <-] & ?)]].
    + eexists. split; [reflexivity|]. simpl. split_and!;
        [by right|split; [done|by intros []]|done|done| |done].
      split; [done|by intros [_ (? & ? & ? & ?)]].
  - eexists. split; [reflexivity|]. simpl. split_and!;
      [by right|split; [done|by intros []]|done|done
      |split; [done|by intros []]|done].
Qed.

(** C2 (amended): a failure of the scheme's test request is replaced by
    the single error [Credentials are invalid], and the handler answers
    with that message alone.  A failure of the settings validation is
    not replaced: [testAuthentication] throws it as it is, and the
    handler answers an [AggregateAjvError] with the message
    [Credentials are invalid] together with the message of every
    offending field, and any other error with its own message. *)
Theorem testAuthentication_failures (d : Destination.t) (settings : JSONObject) :
  (forall test request e,
      validateSettings d settings = Return tt ->
      authentication d ≫= Authentication.testAuthentication = Some test ->
      testRequest d settings = Return request ->
      test request settings = Throw e ->
      testAuthentication d settings = Throw (Error "Credentials are invalid")
      /\ Server.testCredentials d settings
         = {| Server.status := 200; Server.ok := false;
              Server.error := Some "Credentials are invalid";
              Server.fields := None |})
  /\ (forall e,
        validateSettings d settings = Throw e ->
        testAuthentication d settings = Throw e
        /\ Server.testCredentials d settings
           = if String.eqb (JsError.name e) "AggregateAjvError"
             then {| Server.status := 200; Server.ok := false;
                     Server.error := Some "Credentials are invalid";
                     Server.fields := Some (Server.fieldMessages e) |}
             else {| Server.status := 200; Server.ok := false;
                     Server.error := Some (JsError.message e);
                     Server.fields := None |}).
Proof.
  split.
  - intros test request e Hvalid Htest Hrequest Hthrow.
    assert (Hrun : testAuthentication d settings
                   = Throw (Error "Credentials are invalid")).
    { unfold testAuthentication. rewrite Hvalid. simpl.
      rewrite Htest, Hrequest. simpl. by rewrite Hthrow. }
    split; [done|]. unfold Server.testCredentials. by rewrite Hrun.
  - intros e Hvalid.
    assert (Hrun : testAuthentication d settings = Throw e).
    { unfold testAuthentication. by rewrite Hvalid. }
    split; [done|]. unfold Server.testCredentials. by rewrite Hrun.
Qed.

End DestinationFacts.

(** ** The properties at the examples *)

Section ExampleFacts.
Context `{JsNumberOps}.

Lemma twoSubscriptions_elements :
  Destination.getSubscriptions Examples.noJson Examples.twoSubscriptions
  = Return (JArr [Examples.subscriptionTo "nope"; Examples.subscriptionTo "track"]).
Proof. split_and?; vm_compute; reflexivity. Qed.

Lemma twoSubscriptions_sibling :
  Destination.promise
    (Destination.onSubscription validate Examples.shop
       (Examples.subscriptionTo "track") Examples.trackEvent
       (Destination.getDestinationSettings Examples.twoSubscriptions) true)
  = {| settledAt := 5; outcome := Return Examples.sent |}.
Proof. split_and?; vm_compute; reflexivity. Qed.

Lemma twoSubscriptions_onEvent :
  Destination.promise
    (Destination.onEvent validate Examples.noJson Examples.shop
       Examples.trackEvent Examples.twoSubscriptions true)
  = {| settledAt := 0;
       outcome := Throw (Destination.BadRequest
                           (q "nope" +:+ " is not a valid action")) |}.
Proof. split_and?; vm_compute; reflexivity. Qed.

Lemma numericKey_validation :
  Destination.validateSettings Examples.shop Examples.numericKey
  = Throw Examples.apiKeyNotAString.
Proof. split_and?; vm_compute; reflexivity. Qed.

Lemma numericKey_reply :
  Server.testCredentials Examples.shop Examples.numericKey
  = {| Server.status := 200; Server.ok := false;
       Server.error := Some "Credentials are invalid";
       Server.fields :=
         Some {[ "apiKey" := "API Key should be a string but it was a number." ]} |}.
Proof. split_and?; vm_compute; reflexivity. Qed.

Lemma wrongKey_request :
  Destination.validateSettings Examples.shop Examples.wrongKey = Return tt
  /\ Destination.authentication Examples.shop ≫= Authentication.testAuthentication
     = Authentication.testAuthentication Examples.apiKeyScheme
  /\ Destination.testRequest Examples.shop Examples.wrongKey
     = Return {| Got.retry := 0; Got.timeout := 3000;
                 Got.headers := {[ "user-agent" := None ]};
                 Got.extensions := [] |}.
Proof. split_and?; vm_compute; reflexivity. Qed.

Lemma singleScope_tokens :
  (lexed ← lex ("(type=" +:+ q "track" +:+ ")"); normalize lexed)
  = Return [ {| type := TokenType.ParenLeft; value := "(" |};
             {| type := TokenType.Ident; value := "type" |};
             {| type := TokenType.Operator; value := "=" |};
             {| type := TokenType.String; value := q "track" |};
             {| type := TokenType.ParenRight; value := ")" |};
             eosToken ].
Proof. split_and?; vm_compute; reflexivity. Qed.

Lemma singleScope_nodes :
  parseScope [ {| type := TokenType.ParenLeft; value := "(" |};
               {| type := TokenType.Ident; value := "type" |};
               {| type := TokenType.Operator; value := "=" |};
               {| type := TokenType.String; value := q "track" |};
               {| type := TokenType.ParenRight; value := ")" |};
               eosToken ]
  = Return ([Some (EventTypeCondition "=" "track")], "and").
Proof. split_and?; vm_compute; reflexivity. Qed.

Lemma singleScope_parseFql :
  parseFql ("(type=" +:+ q "track" +:+ ")")
  = Valid (GroupCondition "and" [Some (EventTypeCondition "=" "track")]).
Proof. split_and?; vm_compute; reflexivity. Qed.

Lemma emptySource_nodes :
  (lexed ← lex ""; tokens ← normalize lexed; parseScope tokens)
  = Return ([], "and").
Proof. split_and?; vm_compute; reflexivity. Qed.

Lemma conditionalsOnly_nodes :
  (lexed ← lex "and or"; tokens ← normalize lexed; parseScope tokens)
  = Return ([], "or").
Proof. split_and?; vm_compute; reflexivity. Qed.

Lemma trackSubscription_done :
  validate (parseFql ("type = " +:+ q "track")) Examples.trackEvent = true
  /\ returns (outcome (Destination.promise
        (Destination.onSubscription validate Examples.shop
           (Examples.subscriptionTo "track") Examples.trackEvent ∅ true))) = true.
Proof. split_and?; vm_compute; reflexivity. Qed.

(** C6 does not hold of the code: [getDestinationSettings] drops the keys
    [subcription] and [subscriptions], so settings that hold their
    subscription under the key [subscription] are forwarded whole, that
    key included. *)
Theorem getDestinationSettings_keeps_subscription :
  Destination.getSubscriptions Examples.noJson Examples.oneSubscription
  = Return (JArr [Examples.subscriptionTo "track"])
  /\ Destination.getDestinationSettings Examples.oneSubscription
     = Examples.oneSubscription
  /\ Destination.getDestinationSettings Examples.oneSubscription !! "subscription"
     = Some (Examples.subscriptionTo "track")
  /\ map (fun stats => Destination.settings (Destination.input stats))
       (Destination.reports
          (Destination.onEvent validate Examples.noJson Examples.shop
             Examples.trackEvent Examples.oneSubscription true))
     = [Examples.oneSubscription].
Proof. split_and?; vm_compute; reflexivity. Qed.

End ExampleFacts.

(** ** The loop of the parser, turn by turn *)

Section ScopeFacts.
Context `{JsNumberOps}.

Lemma parse_loop_fuel (fuel : nat) :
  forall (fuel' : nat) (stream : list Token) (nodes : list Node) (operator : string),
    length stream < fuel -> length stream < fuel' ->
    parse_loop fuel (fst (shift stream)) (snd (shift stream)) nodes operator
    = parse_loop fuel' (fst (shift stream)) (snd (shift stream)) nodes operator.
Proof.
  induction fuel as [|fuel IH]; intros fuel' stream nodes operator Hf Hf'; [lia|].
  destruct fuel' as [|fuel']; [lia|].
  destruct stream as [|token tokens]; [done|]. simpl in Hf, Hf' |- *.
  destruct (hasType token TokenType.EOS); [done|].
  destruct (identStep token nodes tokens) as [[nodes1 tokens1]|e] eqn:Hident; [|done].
  apply identStep_inv in Hident as (Hlen1 & _).
  destruct (negationStep token nodes1 tokens1) as [[nodes2 tokens2]|e] eqn:Hneg; [|done].
  apply negationStep_inv in Hneg as (Hlen2 & _).
  destruct (hasType token TokenType.ParenLeft).
  - destruct (collectGroup tokens2 []) as [[inner rest]|e] eqn:Hgroup; [|done].
    apply collectGroup_inv in Hgroup. simpl in Hgroup.
    rewrite (IH fuel' (inner ++ [eosToken])) by (rewrite length_app; simpl; lia).
    destruct (parse_loop fuel' _ _ _ _) as [[[innerNodes innerOperator]|e]|]; [|done|done].
    apply IH; lia.
  - apply IH; lia.
Qed.

Lemma parse_loop_some (fuel : nat) :
  forall (stream : list Token) (nodes : list Node) (operator : string),
    length stream < fuel ->
    is_Some (parse_loop fuel (fst (shift stream)) (snd (shift stream)) nodes operator).
Proof.
  induction fuel as [|fuel IH]; intros stream nodes operator Hf; [lia|].
  destruct stream as [|token tokens]; [by eexists|]. simpl in Hf |- *.
  destruct (hasType token TokenType.EOS); [by eexists|].
  destruct (identStep token nodes tokens) as [[nodes1 tokens1]|e] eqn:Hident;
    [|by eexists].
  apply identStep_inv in Hident as (Hlen1 & _).
  destruct (negationStep token nodes1 tokens1) as [[nodes2 tokens2]|e] eqn:Hneg;
    [|by eexists].
  apply negationStep_inv in Hneg as (Hlen2 & _).
  destruct (hasType token TokenType.ParenLeft).
  - destruct (collectGroup tokens2 []) as [[inner rest]|e] eqn:Hgroup; [|by eexists].
    apply collectGroup_inv in Hgroup. simpl in Hgroup.
    destruct (IH (inner ++ [eosToken]) [] "and") as [r ->];
      [rewrite length_app; simpl; lia|].
    destruct r as [[innerNodes innerOperator]|e]; [|by eexists].
    apply IH; lia.
  - apply IH; lia.
Qed.

Lemma parse_loop_scope (fuel : nat) (stream : list Token) (nodes : list Node)
    (operator : string) :
  length stream < fuel ->
  parse_loop fuel (fst (shift stream)) (snd (shift stream)) nodes operator
  = Some (scope stream nodes operator).
Proof.
  intros Hf. unfold scope.
  rewrite (parse_loop_fuel fuel (S (length stream))) by lia.
  by destruct (parse_loop_some (S (length stream)) stream nodes operator) as [r ->];
    [lia|].
Qed.

Lemma parse_scope (tokens : list Token) :
  parse tokens = '(nodes, operator) ← scope tokens [] "and"; Return (finish nodes operator).
Proof. done. Qed.

(** One turn of the loop of [parse]: the steps on the token shifted, then
    the loop on what they left. *)
Lemma scope_cons (token : Token) (tokens : list Token) (nodes : list Node)
    (operator : string) :
  scope (token :: tokens) nodes operator
  = if hasType token TokenType.EOS then Return (nodes, operator)
    else
      '(nodes, tokens) ← identStep token nodes tokens;
      '(nodes, tokens) ← negationStep token nodes tokens;
      '(nodes, tokens) ←
        (if hasType token TokenType.ParenLeft then
           '(groupTokens, tokens) ← collectGroup tokens [];
           '(inner, innerOperator) ← scope (groupTokens ++ [eosToken]) [] "and";
           Return (nodes ++ [finish inner innerOperator], tokens)
         else Return (nodes, tokens));
      scope tokens nodes
        (if hasType token TokenType.Conditional then value token else operator).
Proof.
  unfold scope at 1. change (shift (token :: tokens)) with (Some token, tokens).
  cbn [length fst snd].
  remember (S (length tokens)) as fuel eqn:Hfuel.
  cbn [parse_loop]. cbv zeta.
  destruct (hasType token TokenType.EOS); [done|].
  destruct (identStep token nodes tokens) as [[nodes1 tokens1]|e] eqn:Hident;
    cbn [mbind Outcome_bind]; [|reflexivity].
  apply identStep_inv in Hident as (Hlen1 & _).
  destruct (negationStep token nodes1 tokens1) as [[nodes2 tokens2]|e] eqn:Hneg;
    cbn [mbind Outcome_bind]; [|reflexivity].
  apply negationStep_inv in Hneg as (Hlen2 & _).
  destruct (hasType token TokenType.ParenLeft).
  - destruct (collectGroup tokens2 []) as [[inner rest]|e] eqn:Hgroup;
      cbn [mbind Outcome_bind]; [|reflexivity].
    apply collectGroup_inv in Hgroup. simpl in Hgroup.
    rewrite parse_loop_scope by (rewrite length_app; simpl; lia).
    destruct (scope (inner ++ [eosToken]) [] "and") as [[innerNodes innerOperator]|e];
      cbn [mbind Outcome_bind]; [|reflexivity].
    by rewrite parse_loop_scope by lia.
  - cbn [mbind Outcome_bind]. by rewrite parse_loop_scope by lia.
Qed.

Lemma getTokenValue_quoted (s : string) :
  getTokenValue {| type := TokenType.String; value := q s |} = VString s.
Proof.
  unfold getTokenValue, hasType.
  cbn -[q Str.dropLeadingQuote Str.dropTrailingQuote String.append].
  by rewrite dropLeadingQuote_q, dropTrailingQuote_app.
Qed.

(** X1. Reading a string token gives back the text between its quotes:
    for every string [s], quotes inside it included, the value of the
    string token that holds [s] between two double quotes is [s]. *)
Theorem getTokenValue_literal (s : string) :
  getTokenValue {| type := TokenType.String; value := q s |} = VString s
  /\ toStr (getTokenValue {| type := TokenType.String; value := q s |}) = s.
Proof. by rewrite getTokenValue_quoted. Qed.

Lemma scope_piece (p : Piece) (rest : list Token) (nodes : list Node)
    (operator : string) :
  scope (pieceTokens p ++ rest) nodes operator
  = scope rest (nodes ++ option_list (pieceCondition p))
      (match p with Word word => word | Compare _ _ _ => operator end).
Proof.
  destruct p as [[|] operatorToken valueToken|word]; simpl pieceTokens;
    cbn [app]; rewrite scope_cons; cbn; by rewrite ?app_nil_r.
Qed.

Lemma scope_pieces (pieces : list Piece) :
  forall (rest : list Token) (nodes : list Node) (operator : string),
    scope (concat (map pieceTokens pieces) ++ rest) nodes operator
    = scope rest (nodes ++ conditionsOf pieces) (lastWord pieces operator).
Proof.
  induction pieces as [|p pieces IH]; intros rest nodes operator.
  - simpl. by rewrite app_nil_r.
  - cbn [map concat]. rewrite <- app_assoc, scope_piece, IH.
    unfold conditionsOf. cbn [omap list_omap lastWord foldl].
    destruct p as [[|] ??|?]; simpl; by rewrite <- ?app_assoc, ?app_nil_r.
Qed.

(** X2. A scope without parentheses and calls: for every sequence of
    comparisons on [type] or [event] and of conditional words, [parse]
    returns the conditions of the comparisons in their order, grouped,
    when there is more than one, under the conditional word that comes
    last in the sequence ([and] when there is none); the words read
    before it are overwritten, so [a or b and c] is one [and] group. *)
Theorem parse_flat_sequence (pieces : list Piece) :
  parse (flatTokens pieces)
  = Return (finish (conditionsOf pieces) (lastWord pieces "and")).
Proof.
  rewrite parse_scope. unfold flatTokens.
  rewrite scope_pieces, scope_cons. done.
Qed.

Lemma collectGroup_closer (inner : list Token) :
  forall (closer : Token) (rest groupTokens : list Token),
    noCloser inner = true ->
    hasType closer TokenType.ParenRight = true ->
    collectGroup (inner ++ closer :: rest) groupTokens
    = Return (groupTokens ++ inner, rest).
Proof.
  induction inner as [|t inner IH]; intros closer rest groupTokens Hno Hcloser.
  - simpl. by rewrite Hcloser, app_nil_r.
  - simpl in Hno |- *. apply andb_true_iff in Hno as [Ht Hno].
    apply negb_true_iff in Ht. rewrite Ht, (IH closer rest) by done.
    by rewrite <- app_assoc.
Qed.

Lemma collectGroup_unclosed (tokens : list Token) :
  forall groupTokens : list Token,
    noCloser tokens = true ->
    collectGroup tokens groupTokens = Throw (TypeError_undefined "type").
Proof.
  induction tokens as [|t tokens IH]; intros groupTokens Hno; [done|].
  simpl in Hno |- *. apply andb_true_iff in Hno as [Ht Hno].
  apply negb_true_iff in Ht. rewrite Ht. by apply IH.
Qed.

(** X3. A parenthesized scope is parsed on its own and adds one node: when
    the tokens between a left parenthesis and the first right parenthesis
    are comparisons and conditional words, the loop pushes the result of
    parsing them as a scope of their own and goes on after the right
    parenthesis with the operator it had; the conditional words inside
    the parentheses do not change the operator of the enclosing scope. *)
Theorem parse_group_of_flat_pieces (pieces : list Piece) (rest : list Token)
    (nodes : list Node) (operator : string) :
  noCloser (concat (map pieceTokens pieces)) = true ->
  scope (parenLeft :: concat (map pieceTokens pieces) ++ parenRight :: rest)
    nodes operator
  = scope rest
      (nodes ++ [finish (conditionsOf pieces) (lastWord pieces "and")]) operator.
Proof.
  intros Hno. rewrite scope_cons.
  change (hasType parenLeft TokenType.EOS) with false. cbv iota.
  change (identStep parenLeft nodes ?t) with (Return (nodes, t)).
  cbn [mbind Outcome_bind].
  change (negationStep parenLeft nodes ?t) with (Return (nodes, t)).
  cbn [mbind Outcome_bind].
  change (hasType parenLeft TokenType.ParenLeft) with true. cbv iota.
  rewrite (collectGroup_closer _ parenRight rest []) by done.
  cbn [mbind Outcome_bind app].
  rewrite scope_pieces, scope_cons.
  change (hasType eosToken TokenType.EOS) with true. cbv iota.
  cbn [mbind Outcome_bind app]. reflexivity.
Qed.

(** X4. Parentheses do not nest: the tokens of a group are collected up
    to the first right parenthesis, whatever was opened in between.  A
    stream that opens a group directly inside a group makes [parse] throw
    the TypeError of reading [type] of [undefined], because the inner
    group is parsed without its closing parenthesis. *)
Theorem parse_group_opening_a_group (inner rest : list Token) :
  noCloser inner = true ->
  parse (parenLeft :: parenLeft :: inner ++ parenRight :: rest)
  = Throw (TypeError_undefined "type").
Proof.
  intros Hno.
  assert (Houter : collectGroup (parenLeft :: inner ++ parenRight :: rest) []
                   = Return (parenLeft :: inner, rest)).
  { by apply (collectGroup_closer (parenLeft :: inner) parenRight rest []). }
  assert (Hinner : collectGroup (inner ++ [eosToken]) []
                   = Throw (TypeError_undefined "type")).
  { apply collectGroup_unclosed. unfold noCloser in *.
    by rewrite forallb_app, Hno. }
  rewrite parse_scope, scope_cons.
  change (hasType parenLeft TokenType.EOS) with false.
  change (identStep parenLeft [] (parenLeft :: inner ++ parenRight :: rest))
    with (Return ([] : list Node, parenLeft :: inner ++ parenRight :: rest)).
  cbn [mbind Outcome_bind].
  change (negationStep parenLeft [] (parenLeft :: inner ++ parenRight :: rest))
    with (Return ([] : list Node, parenLeft :: inner ++ parenRight :: rest)).
  cbn [mbind Outcome_bind].
  change (hasType parenLeft TokenType.ParenLeft) with true. cbv iota.
  rewrite Houter. cbn [mbind Outcome_bind app].
  rewrite scope_cons.
  change (hasType parenLeft TokenType.EOS) with false.
  change (identStep parenLeft [] (inner ++ [eosToken]))
    with (Return ([] : list Node, inner ++ [eosToken])).
  cbn [mbind Outcome_bind].
  change (negationStep parenLeft [] (inner ++ [eosToken]))
    with (Return ([] : list Node, inner ++ [eosToken])).
  cbn [mbind Outcome_bind].
  change (hasType parenLeft TokenType.ParenLeft) with true. cbv iota.
  by rewrite Hinner.
Qed.

(** X5. [parseFql] never throws and never returns a bare condition: for
    every source it returns an error, or a group that has at least one
    child and whose operator is [and] whenever it has exactly one. *)
Theorem parseFql_group_or_error (fql : string) :
  (exists error, parseFql fql = ErrorCondition error)
  \/ (exists operator children,
        parseFql fql = Valid (GroupCondition operator children)
        /\ children <> []
        /\ (length children = 1 -> operator = "and")).
Proof.
  unfold parseFql.
  destruct (lex fql) as [lexed|e]; cbn [mbind Outcome_bind];
    [|left; eexists; reflexivity].
  destruct (normalize lexed) as [normalized|e]; cbn [mbind Outcome_bind];
    [|left; eexists; reflexivity].
  destruct (parse normalized) as [[ast|]|e] eqn:Hparse;
    [|left; eexists; reflexivity|left; eexists; reflexivity].
  right. apply parse_wellGrouped in Hparse as Hok.
  destruct ast as [| | |operator children]; simpl;
    try (eexists _, _; split; [reflexivity|]; split; [done|done]).
  exists operator, children. split; [done|].
  simpl in Hok. apply andb_true_iff in Hok as [Hlen _].
  apply bool_decide_eq_true in Hlen.
  split; [intros ->; simpl in Hlen; lia|lia].
Qed.

Lemma eqb_app_quote (b : string) :
  String.eqb (b +:+ String Str.quote EmptyString) (String Str.quote EmptyString)
  = String.eqb b "".
Proof.
  destruct b as [|c b]; [done|].
  rewrite string_app_cons. simpl.
  destruct (Ascii.eqb c Str.quote); [|done].
  by destruct b.
Qed.

Lemma endsWith_star_quote (body : string) :
  Str.endsWith (String Str.star (String Str.quote EmptyString))
    (body +:+ String Str.quote EmptyString)
  = Str.endsWith "*" body.
Proof.
  induction body as [|c body IH]; [done|].
  rewrite string_app_cons. cbn [Str.endsWith]. rewrite IH. f_equal.
  cbn [String.eqb]. unfold Str.star. by rewrite eqb_app_quote.
Qed.

Lemma endsWith_q (body : string) :
  Str.endsWith (String Str.star (String Str.quote EmptyString)) (q body)
  = Str.endsWith "*" body.
Proof. unfold q. cbn [Str.endsWith]. by rewrite endsWith_star_quote. Qed.

(** X6. [match] on the event name with a literal that does not end in a
    star is a suffix test on the literal without its first character,
    whatever that character is: the operator is [ends_with], or
    [not_ends_with] after a negation, and the value is [slice(1)] of the
    literal. *)
Theorem parse_match_without_trailing_star (negated : bool) (body : string) :
  Str.endsWith "*" body = false ->
  parse (matchCall negated "event" body)
  = Return (Some (EventCondition
                    (if negated then "not_ends_with" else "ends_with")
                    (Str.slice1 body))).
Proof.
  intros Hstar. rewrite <- endsWith_q in Hstar.
  pose proof (getTokenValue_quoted body) as Hvalue.
  destruct negated; unfold parse, parseScope, matchCall;
    cbn -[q Str.endsWith Str.sliceInit Str.slice1 getTokenValue String.append];
    unfold parseFqlFunction;
    cbn -[q Str.endsWith Str.sliceInit Str.slice1 getTokenValue String.append];
    rewrite Hstar, Hvalue; done.
Qed.

Lemma identStep_call (name : string) (nodes : list Node) (tokens : list Token) :
  Str.includes ["contains"; "match"] name = true ->
  identStep (identToken name) nodes tokens = parseFqlFunction name nodes tokens false.
Proof.
  intros Hname. unfold Str.includes in Hname. simpl in Hname.
  rewrite orb_false_r in Hname. apply orb_true_iff in Hname.
  destruct Hname as [->%String.eqb_eq| ->%String.eqb_eq]; reflexivity.
Qed.

(** X7. A call of [contains] or [match] whose first argument is neither
    [event] nor a path that starts with [properties] or [traits] adds no
    condition: the five tokens after the function name are consumed and
    the stream parses as what follows them. *)
Theorem parse_call_on_other_field (name : string)
    (opening nameToken separator valueToken closing : Token) (rest : list Token) :
  Str.includes ["contains"; "match"] name = true ->
  String.eqb (value nameToken) "event" = false ->
  Str.hasBagPrefix (value nameToken) = false ->
  parse (identToken name :: opening :: nameToken :: separator :: valueToken
         :: closing :: rest)
  = parse rest.
Proof.
  intros Hname Hevent Hbag. rewrite !parse_scope, scope_cons.
  change (hasType (identToken name) TokenType.EOS) with false. cbv iota.
  rewrite identStep_call by done.
  assert (Hcall : parseFqlFunction name []
                    (opening :: nameToken :: separator :: valueToken :: closing :: rest)
                    false
                  = Return ([], rest)).
  { unfold Str.includes in Hname. simpl in Hname.
    rewrite orb_false_r in Hname. apply orb_true_iff in Hname.
    destruct Hname as [->%String.eqb_eq| ->%String.eqb_eq];
      unfold parseFqlFunction; cbn -[Str.endsWith getTokenValue Str.hasBagPrefix];
      rewrite ?Hevent, ?Hbag; cbn -[Str.endsWith getTokenValue];
      first [reflexivity|by destruct (Str.endsWith _ (value valueToken))]. }
  rewrite Hcall. reflexivity.
Qed.

Lemma bagPath_facts (usesTraits : bool) (key : string) :
  String.eqb (bagPath usesTraits key) "event" = false
  /\ Str.hasBagPrefix (bagPath usesTraits key) = true
  /\ Str.stripBagPrefix (bagPath usesTraits key) = key.
Proof.
  unfold bagPath.
  destruct usesTraits; rewrite !string_app_cons, string_app_nil; split_and!;
    reflexivity.
Qed.

Lemma toStr_ident (s : string) : toStr (getTokenValue (identToken s)) = s.
Proof.
  unfold getTokenValue, Str.includes. simpl.
  destruct (String.eqb_spec s "true") as [->|_]; [done|].
  destruct (String.eqb_spec s "false") as [->|_]; done.
Qed.

Lemma normalize_containsTokens (negated usesTraits : bool) (key literal : string) :
  normalize (containsTokens negated usesTraits [key] literal)
  = Return (containsCall negated (bagPath usesTraits key) literal)
  /\ forall next,
       normalize (containsTokens negated usesTraits [key; next] literal)
       = Return ((if negated
                  then [ {| type := TokenType.Operator; value := "!" |} ] else [])
                 ++ [ identToken "contains";
                      parenLeft;
                      identToken (bagPath usesTraits key);
                      dotToken;
                      identToken next;
                      {| type := TokenType.Comma; value := "," |};
                      {| type := TokenType.String; value := q literal |};
                      parenRight;
                      eosToken ]).
Proof. destruct negated, usesTraits; split; reflexivity. Qed.

(** X8. [contains] on a property, from the tokens of the lexer on.  For a
    key of one segment in the [properties] or [traits] bag, the
    normalizer merges bag, dot and key into one ident, and [parse]
    returns the property condition on the key without its bag prefix,
    with operator [contains], or [not_contains] after a negation, and
    the literal without its quotes as value.  For a key of two segments
    the normalizer merges only the bag and the first segment, the call
    takes its arguments by position, and the condition is on the first
    segment with the second segment as its value; the literal is not
    read. *)
Theorem parse_contains_property (negated usesTraits : bool) (key literal : string) :
  normalize (containsTokens negated usesTraits [key] literal)
  = Return (containsCall negated (bagPath usesTraits key) literal)
  /\ parse (containsCall negated (bagPath usesTraits key) literal)
     = Return (Some (EventPropertyCondition key
                       (if negated then "not_contains" else "contains")
                       (Some (VString literal))))
  /\ forall next,
       (tokens ← normalize (containsTokens negated usesTraits [key; next] literal);
        parse tokens)
       = Return (Some (EventPropertyCondition key
                         (if negated then "not_contains" else "contains")
                         (Some (VString next)))).
Proof.
  destruct (bagPath_facts usesTraits key) as (Hevent & Hbag & Hstrip).
  pose proof (getTokenValue_quoted literal) as Hvalue.
  split; [apply normalize_containsTokens|]. split.
  - destruct negated; unfold parse, parseScope, containsCall;
      cbn -[q getTokenValue String.append bagPath Str.hasBagPrefix Str.stripBagPrefix
            String.eqb Str.firstSegment tokenToConditionType];
      unfold identStep, negationStep, parseFqlFunction;
      cbn -[q getTokenValue String.append bagPath Str.hasBagPrefix Str.stripBagPrefix];
      rewrite Hevent, Hbag, Hstrip, Hvalue; reflexivity.
  - intros next.
    rewrite (proj2 (normalize_containsTokens negated usesTraits key literal) next).
    cbn [mbind Outcome_bind].
    pose proof (toStr_ident next) as Hnext.
    destruct negated; unfold parse, parseScope;
      cbn -[q getTokenValue String.append bagPath Str.hasBagPrefix Str.stripBagPrefix
            String.eqb Str.firstSegment tokenToConditionType toStr];
      unfold identStep, negationStep, parseFqlFunction;
      cbn -[q getTokenValue String.append bagPath Str.hasBagPrefix Str.stripBagPrefix
            toStr];
      rewrite Hevent, Hbag, Hstrip, Hnext; reflexivity.
Qed.

(** X9. A comparison cut short: a stream that ends after [type] or
    [event] throws that the operator token is missing; one that ends
    after the token that follows the attribute throws that the value
    token is missing, also when that token is the end of stream; and when
    the end-of-stream token stands where the value is expected it is
    taken as the value, giving a condition with the value [eos]. *)
Theorem parse_comparison_cut_short (attribute : Attribute) (operatorToken : Token) :
  parse [identToken (attributeName attribute)]
  = Throw (Error "Operator token is missing")
  /\ parse [identToken (attributeName attribute); operatorToken]
     = Throw (Error "Value token is missing")
  /\ parse [identToken (attributeName attribute); operatorToken; eosToken]
     = Return (Some match attribute with
                    | TypeAttribute => EventTypeCondition (value operatorToken) "eos"
                    | EventAttribute => EventCondition (value operatorToken) "eos"
                    end).
Proof. destruct attribute; split_and!; reflexivity. Qed.

Lemma inherited_entry (key : string) :
  Str.includes objectPrototypeMembers key = true ->
  tokenToConditionType key = Some Inherited.
Proof.
  unfold Str.includes, objectPrototypeMembers. simpl. intros Hkey.
  repeat (apply orb_true_iff in Hkey as [Hkey|Hkey];
          [apply String.eqb_eq in Hkey; by rewrite Hkey|]).
  done.
Qed.

Lemma inherited_no_call (name : string) :
  Str.includes objectPrototypeMembers (Str.firstSegment name) = true ->
  isFqlFunction (identToken name) = false.
Proof.
  intros Hkey. unfold isFqlFunction, Str.includes. simpl.
  destruct (String.eqb_spec name "contains") as [->|_]; [done|].
  destruct (String.eqb_spec name "match") as [->|_]; [done|].
  done.
Qed.

(** X10. An identifier whose first segment names a member of
    [Object.prototype] (such as [toString] or [constructor]) is looked up
    in the table of condition types and finds that member: the parser
    consumes the two tokens after it as operator and value and adds no
    condition, and throws that the value token is missing when only one
    token follows. *)
Theorem parse_prototype_member (name : string) (following afterNext : Token)
    (rest : list Token) :
  Str.includes objectPrototypeMembers (Str.firstSegment name) = true ->
  parse (identToken name :: following :: afterNext :: rest) = parse rest
  /\ parse [identToken name; following] = Throw (Error "Value token is missing").
Proof.
  intros Hkey.
  pose proof (inherited_entry _ Hkey) as Hentry.
  pose proof (inherited_no_call _ Hkey) as Hcall.
  split.
  - rewrite !parse_scope, scope_cons.
    change (hasType (identToken name) TokenType.EOS) with false. cbv iota.
    unfold identStep.
    change (hasType (identToken name) TokenType.Ident) with true. cbv iota.
    change (value (identToken name)) with name.
    rewrite Hentry, Hcall. reflexivity.
  - unfold parse, parseScope. cbn [length parse_loop shift fst snd].
    change (hasType (identToken name) TokenType.EOS) with false. cbv iota.
    unfold identStep.
    change (hasType (identToken name) TokenType.Ident) with true. cbv iota.
    change (value (identToken name)) with name.
    rewrite Hentry. reflexivity.
Qed.

Ltac frame_cases :=
  repeat (case_match; simplify_eq/=; try done).

Lemma parseFqlFunction_frame (pre : list Node) (name : string) (nodes : list Node)
    (tokens : list Token) (negate : bool) :
  parseFqlFunction name (pre ++ nodes) tokens negate
  = '(nodes', tokens') ← parseFqlFunction name nodes tokens negate;
    Return (pre ++ nodes', tokens').
Proof.
  unfold parseFqlFunction.
  destruct (String.eqb name "contains"), (String.eqb name "match");
  destruct tokens as [|t1 [|t2 [|t3 [|t4 [|t5 rest]]]]]; simpl; try done;
    frame_cases; by rewrite ?app_assoc.
Qed.

Lemma identStep_frame (pre : list Node) (token : Token) (nodes : list Node)
    (tokens : list Token) :
  identStep token (pre ++ nodes) tokens
  = '(nodes', tokens') ← identStep token nodes tokens;
    Return (pre ++ nodes', tokens').
Proof.
  unfold identStep.
  destruct (hasType token TokenType.Ident); [|done].
  destruct (tokenToConditionType _) as [[[]|]|];
    destruct tokens as [|t1 [|t2 rest]]; simpl; try done;
    frame_cases; rewrite <- ?app_assoc; try done; apply parseFqlFunction_frame.
Qed.

Lemma negationStep_frame (pre : list Node) (token : Token) (nodes : list Node)
    (tokens : list Token) :
  negationStep token (pre ++ nodes) tokens
  = '(nodes', tokens') ← negationStep token nodes tokens;
    Return (pre ++ nodes', tokens').
Proof.
  unfold negationStep.
  destruct (_ && _); [|done].
  destruct (tokens !! 0%nat); [|done].
  destruct (isFqlFunction t); [|done]. apply parseFqlFunction_frame.
Qed.

(** The loop reads the nodes collected so far nowhere: it only appends. *)
Lemma scope_frame (n : nat) :
  forall (pre : list Node) (stream : list Token) (nodes : list Node) (operator : string),
    length stream <= n ->
    scope stream (pre ++ nodes) operator
    = '(nodes', operator') ← scope stream nodes operator;
      Return (pre ++ nodes', operator').
Proof.
  induction n as [|n IH]; intros pre stream nodes operator Hn.
  { destruct stream; [done|simpl in Hn; lia]. }
  destruct stream as [|token tokens]; [done|]. simpl in Hn.
  rewrite !scope_cons.
  destruct (hasType token TokenType.EOS); [done|].
  rewrite identStep_frame.
  destruct (identStep token nodes tokens) as [[nodes1 tokens1]|e] eqn:Hident;
    cbn [mbind Outcome_bind]; [|reflexivity].
  apply identStep_inv in Hident as (Hlen1 & _).
  rewrite negationStep_frame.
  destruct (negationStep token nodes1 tokens1) as [[nodes2 tokens2]|e] eqn:Hneg;
    cbn [mbind Outcome_bind]; [|reflexivity].
  apply negationStep_inv in Hneg as (Hlen2 & _).
  destruct (hasType token TokenType.ParenLeft).
  - destruct (collectGroup tokens2 []) as [[inner rest]|e] eqn:Hgroup;
      cbn [mbind Outcome_bind]; [|reflexivity].
    apply collectGroup_inv in Hgroup. simpl in Hgroup.
    destruct (scope (inner ++ [eosToken]) [] "and") as [[innerNodes innerOperator]|e];
      cbn [mbind Outcome_bind]; [|reflexivity].
    rewrite <- app_assoc. apply IH. lia.
  - cbn [mbind Outcome_bind]. apply IH. lia.
Qed.

(** C4 (amended): [parse] builds a group from a scope exactly when the
    scope yields more than one node, a node being a condition of the
    scope or the result of a parenthesized sub-scope, which is
    [undefined] when the parentheses hold no condition.  A scope of one
    node returns that node unwrapped, a scope of more nodes returns the
    group of its nodes under the operator of the scope, and every group
    at any depth of a result has more than one child, [undefined]
    children counted.  So a scope whose only node is one condition is
    returned unwrapped, and [parseFql] then wraps it, unless it is a
    group, in a group with the operator [and]; but the same scope after
    an empty pair of parentheses yields a group of [undefined] and the
    nodes of the scope: one condition next to empty parentheses is
    wrapped by [parse] itself. *)
Theorem parse_single_condition_unwrapped (fql : string) (tokens : list Token)
    (nodes : list Node) (operator : string) :
  (lexed ← lex fql; normalize lexed) = Return tokens ->
  parseScope tokens = Return (nodes, operator) ->
  parse tokens
  = Return (match nodes with
            | [] => None
            | [node] => node
            | _ :: _ :: _ => Some (GroupCondition operator nodes)
            end)
  /\ (forall ast, parse tokens = Return (Some ast) -> wellGrouped ast = true)
  /\ (forall c, nodes = [Some c] ->
        parse tokens = Return (Some c)
        /\ wellGrouped c = true
        /\ parseFql fql
           = Valid (if isGroup c then c else GroupCondition "and" [Some c]))
  /\ parse (parenLeft :: parenRight :: tokens)
     = Return (match nodes with
               | [] => None
               | _ :: _ => Some (GroupCondition operator (None :: nodes))
               end).
Proof.
  intros Hlex Hscope.
  assert (Hparse : parse tokens = Return (finish nodes operator))
    by (unfold parse; by rewrite Hscope).
  rewrite finish_cases in Hparse.
  split_and!.
  - done.
  - intros ast. apply parse_wellGrouped.
  - intros c ->. split_and!; [done|by eapply parse_wellGrouped|].
    unfold parseFql.
    destruct (lex fql) as [lexed|e]; [|done]. simpl in Hlex |- *.
    rewrite Hlex. simpl. rewrite Hparse.
    by destruct (isGroup c).
  - rewrite parse_scope, scope_cons.
    change (hasType parenLeft TokenType.EOS) with false. cbv iota.
    change (identStep parenLeft [] ?t) with (Return ([] : list Node, t)).
    cbn [mbind Outcome_bind].
    change (negationStep parenLeft [] ?t) with (Return ([] : list Node, t)).
    cbn [mbind Outcome_bind].
    change (hasType parenLeft TokenType.ParenLeft) with true. cbv iota.
    change (collectGroup (parenRight :: tokens) [])
      with (Return ([] : list Token, tokens)).
    cbn [mbind Outcome_bind app].
    rewrite scope_cons.
    change (hasType eosToken TokenType.EOS) with true. cbv iota.
    cbn [mbind Outcome_bind app].
    change (hasType parenLeft TokenType.Conditional) with false. cbv iota.
    change (finish [] "and") with (None : Node).
    pose proof (scope_frame (length tokens) [None] tokens [] "and") as Hframe.
    cbn [app] in Hframe. rewrite Hframe by done.
    change (scope tokens [] "and") with (parseScope tokens).
    rewrite Hscope. cbn [mbind Outcome_bind app].
    by destruct nodes.
Qed.

End ScopeFacts.

Lemma collapse_without_dots (tokens : list Token) :
  noDots (tail tokens) = true -> endsWithEOS tokens = true ->
  collapse tokens = Return tokens.
Proof.
  induction tokens as [|current rest IH]; intros Hdots Heos; [done|].
  simpl in Hdots.
  destruct rest as [|next rest'].
  - rewrite endsWithEOS_single in Heos. cbn [collapse].
    destruct (hasType current TokenType.Ident) eqn:Hident; [|done].
    by rewrite (hasType_excl current TokenType.EOS TokenType.Ident) in Hident.
  - rewrite endsWithEOS_cons in Heos by done.
    simpl in Hdots. apply andb_true_iff in Hdots as [Hnext Hdots].
    apply negb_true_iff in Hnext.
    specialize (IH Hdots Heos).
    cbn [collapse] in IH |- *. rewrite Hnext.
    destruct (hasType current TokenType.Ident); by rewrite IH.
Qed.

(** X11. The normalizer changes nothing but dotted paths: a stream that
    ends with the end-of-stream token and holds no dot token after its
    first token is returned as it is. *)
Theorem normalize_without_dots (tokens : list Token) :
  noDots (tail tokens) = true -> endsWithEOS tokens = true ->
  normalize tokens = Return tokens.
Proof. intros. rewrite normalize_collapse. by apply collapse_without_dots. Qed.

(** ** Subscriptions, one by one and together *)

Lemma elem_of_concat {A} (ls : list (list A)) (x : A) :
  x ∈ concat ls <-> exists l, l ∈ ls /\ x ∈ l.
Proof.
  rewrite list_elem_of_In, in_concat. split.
  - intros (l & Hl & Hx). exists l. by rewrite !list_elem_of_In.
  - intros (l & Hl & Hx). exists l. by rewrite <- !list_elem_of_In.
Qed.

Section DispatchFacts.
Context `{JsNumberOps}.
Variable validate : Subscription -> SegmentEvent -> bool.
Variable JSON_parse : string -> Outcome JSON.

Import Destination.

(** X12. The observer is told what the subscription was run with and does
    not change the run: for a subscription that is not [null],
    [onSubscription] settles the same way with and without the observer,
    reports nothing without it, and with it makes exactly one report,
    which holds the name of the destination, the [partnerAction] and
    [subscribe] of the subscription, the time the run took, the event and
    settings passed in, and as output the results when the run fulfilled
    and [null] when it threw. *)
Theorem onSubscription_report (d : Destination.t) (subscription : JSON)
    (event : SegmentEvent) (settings : JSONObject) :
  subscription <> JNull ->
  let run := onSubscription validate d subscription event settings true in
  promise (onSubscription validate d subscription event settings false) = promise run
  /\ reports (onSubscription validate d subscription event settings false) = []
  /\ exists stats,
      reports run = [stats]
      /\ destination stats = name d
      /\ action stats = field subscription "partnerAction"
      /\ subscribe stats = field subscription "subscribe"
      /\ duration stats = settledAt (promise run)
      /\ Destination.event (input stats) = event
      /\ Destination.settings (input stats) = settings
      /\ output stats = match outcome (promise run) with
                        | Return results => Some results
                        | Throw _ => None
                        end.
Proof.
  intros Hnull run. subst run. unfold onSubscription.
  destruct subscription as [| | | | |fields]; try done;
    try (split_and!; [done|done|]; eexists; split; [reflexivity|];
         simpl; split_and!; done).
  destruct (field (JObj fields) "subscribe") as [[| | |fql| |]|];
    try (split_and!; [done|done|]; eexists; split; [reflexivity|];
         simpl; split_and!; done).
  destruct (validate (parseFql fql) event); simpl.
  - destruct (executeAction d _ _) as [pending|e]; simpl.
    + destruct (outcome pending) eqn:Hout; simpl;
        (split_and!; [done|done|]); eexists; (split; [reflexivity|]);
        simpl; split_and!; try done; lia.
    + split_and!; [done|done|]. eexists. split; [reflexivity|].
      simpl. split_and!; done.
  - split_and!; [done|done|]. eexists. split; [reflexivity|].
    simpl. split_and!; done.
Qed.

Lemma onSubscription_skips (d : Destination.t) (subscription : JSON)
    (event : SegmentEvent) (settings : JSONObject) (onComplete : bool) :
  subscription <> JNull ->
  matches validate subscription event = false ->
  promise (onSubscription validate d subscription event settings onComplete)
  = {| settledAt := 0; outcome := Return (sentinel subscription) |}.
Proof.
  intros Hnull Hmatch. unfold matches in Hmatch. unfold onSubscription, sentinel.
  destruct subscription as [| | | | |fields]; try done.
  destruct (field (JObj fields) "subscribe") as [[| | |fql| |]|]; try done.
  simpl. by rewrite Hmatch.
Qed.

(** X13. A subscription whose filter does not match runs no action and
    does not fail: [onSubscription] fulfils at once with the one-element
    result [not subscribed] when [subscribe] is a string and [invalid
    subscription] when it is not, whatever the [partnerAction] names, and
    every report it makes has that result as its output. *)
Theorem onSubscription_unmatched (d : Destination.t) (subscription : JSON)
    (event : SegmentEvent) (settings : JSONObject) (onComplete : bool) :
  subscription <> JNull ->
  matches validate subscription event = false ->
  let run := onSubscription validate d subscription event settings onComplete in
  promise run
  = {| settledAt := 0;
       outcome := Return (if isString (field subscription "subscribe")
                          then notSubscribed else invalidSubscription) |}
  /\ forall stats, stats ∈ reports run ->
       output stats = Some (if isString (field subscription "subscribe")
                            then notSubscribed else invalidSubscription).
Proof.
  intros Hnull Hmatch run. subst run.
  split; [by apply onSubscription_skips|].
  unfold matches in Hmatch. unfold onSubscription.
  destruct subscription as [| | | | |fields]; try done;
    try (destruct onComplete; simpl;
         [by intros stats ->%list_elem_of_singleton|by intros stats ?%elem_of_nil]).
  destruct (field (JObj fields) "subscribe") as [[| | |fql| |]|];
    try (destruct onComplete; simpl;
         [by intros stats ->%list_elem_of_singleton|by intros stats ?%elem_of_nil]).
  rewrite Hmatch.
  destruct onComplete; simpl;
    [by intros stats ->%list_elem_of_singleton|by intros stats ?%elem_of_nil].
Qed.

(** X14. A matching subscription whose [partnerAction] names no action of
    the destination (and no member of [Object.prototype]) rejects at once
    with the BadRequest error that quotes the slug, and the observer gets
    one report, with state [errored] and output [null]. *)
Theorem onSubscription_unknown_action (d : Destination.t) (subscription : JSON)
    (event : SegmentEvent) (settings : JSONObject) (slug : string) :
  matches validate subscription event = true ->
  field subscription "partnerAction" = Some (JStr slug) ->
  actions d !! slug = None ->
  Str.includes objectPrototypeMembers slug = false ->
  let run := onSubscription validate d subscription event settings true in
  promise run
  = {| settledAt := 0;
       outcome := Throw (BadRequest (q slug +:+ " is not a valid action")) |}
  /\ exists stats,
      reports run = [stats] /\ state stats = "errored" /\ output stats = None.
Proof.
  intros Hmatch Hslug Hactions Hproto run. subst run.
  unfold matches in Hmatch. unfold onSubscription.
  destruct subscription as [| | | | |fields]; try done.
  destruct (field (JObj fields) "subscribe") as [[| | |fql| |]|]; try done.
  rewrite Hmatch. cbn [negb].
  unfold executeAction. rewrite Hslug. cbn [valueToString jsonToString].
  rewrite Hactions, Hproto. cbn [promise reports]. split.
  - do 3 f_equal. unfold q. by rewrite !string_app_cons, string_app_assoc.
  - eexists. split; [reflexivity|]. done.
Qed.

(** X15. Without subscriptions nothing runs: when [subscription] is falsy
    and [subscriptions] is absent, an empty array, or neither a string
    nor an array, [onEvent] fulfils at once with the empty list and the
    observer is not called. *)
Theorem onEvent_without_subscriptions (d : Destination.t) (event : SegmentEvent)
    (settings : JSONObject) (onComplete : bool) :
  noSubscriptions settings = true ->
  onEvent validate JSON_parse d event settings onComplete
  = {| promise := {| settledAt := 0; outcome := Return [] |}; reports := [] |}.
Proof.
  unfold noSubscriptions, onEvent, getSubscriptions.
  intros [Hone Hmany]%andb_true_iff. apply negb_true_iff in Hone. rewrite Hone.
  by destruct (settings !! "subscriptions") as [[| | |text|[|]|]|].
Qed.

(** X16. Subscriptions held as text are parsed and then treated as if the
    settings held the parsed value: when [JSON.parse] throws, [onEvent]
    rejects with that error before any subscription runs; when it
    returns an array, [onEvent] does what it does for settings that hold
    that array; when it returns [null] or another value that is no
    array, the call of [map] throws a TypeError. *)
Theorem onEvent_unparsable_subscriptions (d : Destination.t) (event : SegmentEvent)
    (settings : JSONObject) (onComplete : bool) (text : string) :
  truthy (settings !! "subscription") = false ->
  settings !! "subscriptions" = Some (JStr text) ->
  onEvent validate JSON_parse d event settings onComplete
  = match JSON_parse text with
    | Throw e =>
        {| promise := {| settledAt := 0; outcome := Throw e |}; reports := [] |}
    | Return (JArr elements) =>
        onEvent validate JSON_parse d event
          (<[ "subscriptions" := JArr elements ]> settings) onComplete
    | Return JNull =>
        {| promise := {| settledAt := 0; outcome := Throw (TypeError_null "map") |};
           reports := [] |}
    | Return _ =>
        {| promise := {| settledAt := 0;
                         outcome := Throw (notAFunction "subscriptions.map") |};
           reports := [] |}
    end.
Proof.
  intros Hone Hmany. unfold onEvent at 1, getSubscriptions. rewrite Hone, Hmany.
  destruct (JSON_parse text) as [[| | | |elements|]|e]; try done.
  unfold onEvent, getSubscriptions.
  rewrite lookup_insert_ne by done. rewrite Hone, lookup_insert_eq.
  assert (Hsame : getDestinationSettings (<["subscriptions":=JArr elements]> settings)
                  = getDestinationSettings settings).
  { unfold getDestinationSettings. f_equal. by rewrite delete_insert_eq. }
  by rewrite Hsame.
Qed.

Lemma onSubscription_reports_fields (d : Destination.t) (subscription : JSON)
    (event : SegmentEvent) (settings : JSONObject) (onComplete : bool)
    (stats : SubscriptionStats) :
  stats ∈ reports (onSubscription validate d subscription event settings onComplete) ->
  destination stats = name d
  /\ Destination.event (input stats) = event
  /\ Destination.settings (input stats) = settings.
Proof.
  unfold onSubscription.
  destruct subscription as [| | | | |fields]; destruct onComplete; simpl;
    try (by intros ?%elem_of_nil);
    try (by intros ->%list_elem_of_singleton).
  - destruct (fields !! "subscribe") as [[| | |fql| |]|]; simpl;
      try (by intros ->%list_elem_of_singleton).
    destruct (validate (parseFql fql) event); simpl;
      [|by intros ->%list_elem_of_singleton].
    destruct (executeAction d _ _) as [pending|e]; simpl;
      [|by intros ->%list_elem_of_singleton].
    destruct (outcome pending); simpl; by intros ->%list_elem_of_singleton.
  - destruct (fields !! "subscribe") as [[| | |fql| |]|]; simpl;
      try (by intros ?%elem_of_nil).
    destruct (validate (parseFql fql) event); simpl; [|by intros ?%elem_of_nil].
    destruct (executeAction d _ _) as [pending|e]; simpl; [|by intros ?%elem_of_nil].
    destruct (outcome pending); simpl; by intros ?%elem_of_nil.
Qed.

(** X17. Every report made during [onEvent] carries the event, the name
    of the destination, and the settings as [getDestinationSettings]
    leaves them: without the key [subscriptions], and equal to the
    settings of the call at every key other than [subscriptions] and
    [subcription]. *)
Theorem onEvent_reports_forwarded_settings (d : Destination.t) (event : SegmentEvent)
    (settings : JSONObject) (onComplete : bool) (stats : SubscriptionStats) :
  stats ∈ reports (onEvent validate JSON_parse d event settings onComplete) ->
  destination stats = name d
  /\ Destination.event (input stats) = event
  /\ Destination.settings (input stats) = getDestinationSettings settings
  /\ Destination.settings (input stats) !! "subscriptions" = None
  /\ (forall key, key <> "subscriptions" -> key <> "subcription" ->
        Destination.settings (input stats) !! key = settings !! key).
Proof.
  unfold onEvent.
  destruct (getSubscriptions JSON_parse settings) as [[| | | |elements|]|e];
    simpl; try (by intros ?%elem_of_nil).
  intros (l & (run & -> & (s & -> & _)%elem_of_map)%elem_of_map & Hin)%elem_of_concat.
  apply onSubscription_reports_fields in Hin as (Hd & He & Hs).
  rewrite Hs. split_and!; try done.
  - apply (getDestinationSettings_lookup settings).
  - intros key H1 H2. unfold getDestinationSettings.
    by rewrite !lookup_delete_ne.
Qed.

Lemma Promise_all_immediate {A B} (f : A -> Promise B) (g : A -> B) (l : list A) :
  (forall a, a ∈ l -> f a = {| settledAt := 0; outcome := Return (g a) |}) ->
  Promise_all (map f l) = {| settledAt := 0; outcome := Return (map g l) |}.
Proof.
  intros Hall. unfold Promise_all.
  assert (Hmap : map f l = map (fun a => {| settledAt := 0; outcome := Return (g a) |}) l).
  { apply map_ext_in. intros a Ha. apply Hall. by apply list_elem_of_In. }
  rewrite Hmap. clear Hall Hmap.
  induction l as [|a l IH]; [done|]. simpl in *.
  destruct (firstRejection _) as [[t e]|]; [done|].
  unfold fulfilledValues in *. simpl. by injection IH as -> ->.
Qed.

(** X18. When no subscription matches the event, [onEvent] fulfils at
    once, whatever actions the subscriptions name, with one result per
    subscription in the order of the array: [not subscribed] for a
    subscription whose [subscribe] is a string and [invalid subscription]
    for one whose [subscribe] is not. *)
Theorem onEvent_nothing_matches (d : Destination.t) (event : SegmentEvent)
    (settings : JSONObject) (onComplete : bool) (elements : list JSON) :
  getSubscriptions JSON_parse settings = Return (JArr elements) ->
  (forall subscription, subscription ∈ elements ->
     subscription <> JNull /\ matches validate subscription event = false) ->
  promise (onEvent validate JSON_parse d event settings onComplete)
  = {| settledAt := 0; outcome := Return (concat (map sentinel elements)) |}.
Proof.
  intros Hsubs Hnone. unfold onEvent. rewrite Hsubs. cbn [promise].
  rewrite map_map.
  rewrite (Promise_all_immediate _ sentinel); [done|].
  intros subscription Hin. destruct (Hnone _ Hin) as [Hnull Hmatch].
  by apply onSubscription_skips.
Qed.

End DispatchFacts.

(** ** The credential test and its reply *)

Section CredentialFacts.
Context `{JsNumberOps}.

(** X19. A failure of [extendRequest] is not turned into the generic
    error: when the settings are valid and the scheme has a test, an
    error thrown while the request is extended is thrown by
    [testAuthentication] as it is, and the handler answers with the
    message of that error. *)
Theorem testAuthentication_extension_failure (d : Destination.t)
    (settings : JSONObject) (test : Got.t -> JSONObject -> Outcome unit)
    (e : JsError.t) :
  Destination.validateSettings d settings = Return tt ->
  Destination.authentication d ≫= Authentication.testAuthentication = Some test ->
  Destination.testRequest d settings = Throw e ->
  Destination.testAuthentication d settings = Throw e
  /\ (JsError.name e <> "AggregateAjvError" ->
      Server.testCredentials d settings
      = {| Server.status := 200; Server.ok := false;
           Server.error := Some (JsError.message e); Server.fields := None |}).
Proof.
  intros Hvalid Htest Hrequest.
  assert (Hrun : Destination.testAuthentication d settings = Throw e).
  { unfold Destination.testAuthentication. rewrite Hvalid. simpl.
    by rewrite Htest, Hrequest. }
  split; [done|]. intros Hname. unfold Server.testCredentials. rewrite Hrun.
  apply String.eqb_neq in Hname. by rewrite Hname.
Qed.

Lemma fieldMessages_fold (key : string) (items : list AjvError.t) :
  forall fields : gmap string string,
    fields !! "__proto__" = None ->
    foldl (fun fields fieldError =>
             let name := Str.removeFirstDollarDot (AjvError.path fieldError) in
             if String.eqb name "__proto__" then fields
             else <[ name := AjvError.message fieldError ]> fields) fields items !! key
    = if String.eqb key "__proto__" then None
      else match last (filter (reportsField key) items) with
           | Some fieldError => Some (AjvError.message fieldError)
           | None => fields !! key
           end.
Proof.
  induction items as [|fieldError items IH]; intros fields Hproto.
  { simpl. destruct (String.eqb_spec key "__proto__") as [->|]; done. }
  cbn [foldl]. cbv zeta.
  destruct (String.eqb_spec (Str.removeFirstDollarDot (AjvError.path fieldError))
              "__proto__") as [Hname|Hname].
  - rewrite IH by done. rewrite filter_cons.
    destruct (String.eqb_spec key "__proto__") as [->|Hkey]; [done|].
    destruct (decide (reportsField key fieldError)) as [Hyes|Hno]; [|done].
    unfold reportsField in Hyes. congruence.
  - rewrite IH by (by rewrite lookup_insert_ne). rewrite filter_cons.
    destruct (String.eqb_spec key "__proto__") as [->|Hkey]; [done|].
    destruct (decide (reportsField key fieldError)) as [Hyes|Hno].
    + destruct (filter (reportsField key) items) as [|x xs] eqn:Hrest.
      * simpl. unfold reportsField in Hyes. by rewrite Hyes, lookup_insert_eq.
      * rewrite last_cons_cons.
        destruct (last (x :: xs)) eqn:Hlast; [done|].
        by apply last_None in Hlast.
    + destruct (last (filter (reportsField key) items)); [done|].
      unfold reportsField in Hno. by rewrite lookup_insert_ne.
Qed.

(** X20. The [fields] of the reply hold, for each field name other than
    [__proto__], the message of the last error of the aggregate whose
    path, with its first [$.] removed, is that name, and nothing for a
    name no error has: a later error on the same field replaces an
    earlier one.  An error whose name comes out as [__proto__] creates
    no field. *)
Theorem fieldMessages_lookup (error : JsError.t) (key : string) :
  Server.fieldMessages error !! key
  = if String.eqb key "__proto__" then None
    else AjvError.message <$> last (filter (reportsField key) (JsError.items error)).
Proof.
  unfold Server.fieldMessages. rewrite fieldMessages_fold by done.
  destruct (String.eqb key "__proto__"); [done|]. by destruct (last _).
Qed.

End CredentialFacts.

(** ** The constructor *)

Section ConstructionFacts.
Context `{JsNumberOps}.
Variable ActionDefinition : Type.
Variable JSONSchema : Type.
Variable newAction :
  ActionDefinition -> option (JSONObject -> Outcome JSON) -> Action.t.
Variable fieldsToJsonSchema : JSONObject -> JSONSchema.
Variable executeStep : JSONSchema -> JSONObject -> Outcome unit.

Abbreviation new := (Construction.new ActionDefinition JSONSchema newAction
                             fieldsToJsonSchema executeStep).

Lemma new_fields (destination : DestinationDefinition.t ActionDefinition) :
  Destination.name (new destination) = DestinationDefinition.name destination
  /\ Destination.authentication (new destination)
     = DestinationDefinition.authentication destination
  /\ Destination.extendRequest (new destination)
     = DestinationDefinition.extendRequest destination
  /\ Destination.settingsSchema (new destination)
     = (fields ← DestinationDefinition.authentication destination
                 ≫= Authentication.fields;
        Some (executeStep (fieldsToJsonSchema fields)))
  /\ forall slug,
       Destination.actions (new destination) !! slug
       = (fun definition =>
            newAction definition (DestinationDefinition.extendRequest destination))
         <$> DestinationDefinition.actions destination !! slug.
Proof.
  unfold Construction.new.
  apply (map_fold_weak_ind
    (fun (this : Destination.t) (m : gmap string ActionDefinition) =>
       Destination.name this = DestinationDefinition.name destination
       /\ Destination.authentication this
          = DestinationDefinition.authentication destination
       /\ Destination.extendRequest this
          = DestinationDefinition.extendRequest destination
       /\ Destination.settingsSchema this
          = (fields ← DestinationDefinition.authentication destination
                      ≫= Authentication.fields;
             Some (executeStep (fieldsToJsonSchema fields)))
       /\ forall slug,
            Destination.actions this !! slug
            = (fun definition =>
                 newAction definition
                   (DestinationDefinition.extendRequest destination))
              <$> m !! slug)).
  - done.
  - intros slug definition m this Hfresh (Hn & Ha & He & Hs & Hl).
    unfold Construction.partnerAction. simpl. split_and!; try done.
    intros key. destruct (decide (slug = key)) as [->|Hne].
    + by rewrite !lookup_insert_eq, He.
    + rewrite !lookup_insert_ne by done. apply Hl.
Qed.

(** X21. The constructed destination runs exactly the actions of its
    definition: for a definition without the key [__proto__] and a slug
    that names no member of [Object.prototype], [executeAction] executes
    the action built from the definition registered under the slug, with
    the [extendRequest] of the destination and empty cached fields, and
    throws the BadRequest error when the definition has none. *)
Theorem new_actions (destination : DestinationDefinition.t ActionDefinition)
    (slug : string) (input : Destination.EventInput) :
  DestinationDefinition.actions destination !! "__proto__" = None ->
  Str.includes objectPrototypeMembers slug = false ->
  Destination.executeAction (new destination) (Some (JStr slug)) input
  = match DestinationDefinition.actions destination !! slug with
    | Some definition =>
        Return (Action.execute
                  (newAction definition
                     (DestinationDefinition.extendRequest destination))
                  ∅ (Destination.mapping input) (Destination.event input)
                  (Destination.settings input))
    | None => Throw (Destination.BadRequest (q slug +:+ " is not a valid action"))
    end.
Proof.
  intros _ Hproto. destruct (new_fields destination) as (_ & _ & _ & _ & Hl).
  unfold Destination.executeAction. cbn [valueToString jsonToString].
  rewrite Hl, Hproto.
  destruct (DestinationDefinition.actions destination !! slug); simpl; [done|].
  do 2 f_equal. unfold q. by rewrite !string_app_cons, string_app_assoc.
Qed.

(** X22. A destination defined without authentication has no settings
    schema and no test: [testAuthentication] returns for every settings
    object, and the handler answers [ok]. *)
Theorem new_without_authentication
    (destination : DestinationDefinition.t ActionDefinition) (settings : JSONObject) :
  DestinationDefinition.authentication destination = None ->
  Destination.testAuthentication (new destination) settings = Return tt
  /\ Server.testCredentials (new destination) settings
     = {| Server.status := 200; Server.ok := true;
          Server.error := None; Server.fields := None |}.
Proof.
  intros Hnone. destruct (new_fields destination) as (_ & Ha & _ & Hs & _).
  assert (Hrun : Destination.testAuthentication (new destination) settings = Return tt).
  { unfold Destination.testAuthentication, Destination.validateSettings.
    rewrite Hs, Ha, Hnone. done. }
  split; [done|]. unfold Server.testCredentials. by rewrite Hrun.
Qed.

End ConstructionFacts.

(** ** The Friendbuy actions *)

Section FriendbuyFacts.
Context `{JsNumberOps}.
Variable base64Encode : string -> string.
Variable encodeURIComponent : string -> string.
Variable JSON_stringify : Friendbuy.Literal -> string.
Variable trackUrl : string.

Import Friendbuy.

Lemma app_not_empty (a b : string) : b <> "" -> a +:+ b <> "".
Proof. destruct a; [done|]. by rewrite string_app_cons. Qed.

(** X23. [getName] returns a name or [undefined], never an empty or
    otherwise falsy value: it returns [payload.name] when that is
    truthy, and it returns [undefined] exactly when [name] is falsy and
    one of [firstName] and [lastName] is falsy. *)
Theorem getName_never_blank (payload : JSONObject) :
  (getName payload = None \/ truthy (getName payload) = true)
  /\ (getName payload = None
      <-> truthy (payload !! "name") = false
          /\ (truthy (payload !! "firstName") = false
              \/ truthy (payload !! "lastName") = false))
  /\ (truthy (payload !! "name") = true -> getName payload = payload !! "name").
Proof.
  unfold getName.
  destruct (truthy (payload !! "name")) eqn:Hname.
  - split_and!; [by right| |done].
    split; [|by intros []]. intros Hnone. by rewrite Hnone in Hname.
  - destruct (truthy (payload !! "firstName")), (truthy (payload !! "lastName"));
      simpl; split_and!; try (by left); try done;
      try (split; [done|intros [_ [|]]; done]);
      try (split; [intros _; split; [done|by left]|done]);
      try (split; [intros _; split; [done|by right]|done]).
    right. apply negb_true_iff. apply String.eqb_neq.
    apply app_not_empty. rewrite string_app_cons. done.
Qed.

Lemma pickDefined_spec (obj : gmap string JsValue) (key : string) :
  pickDefined obj !! key = obj !! key ≫= defined.
Proof.
  unfold pickDefined. revert key.
  apply (map_fold_weak_ind
           (fun (result : gmap string JSON) (m : gmap string JsValue) =>
              forall key, result !! key = m !! key ≫= defined)).
  - intros key. by rewrite !lookup_empty.
  - intros i v m result Hfresh IH key.
    destruct (decide (i = key)) as [->|Hne].
    + rewrite lookup_insert_eq. simpl.
      destruct (defined v) as [j|] eqn:Hv.
      * by rewrite lookup_insert_eq.
      * by rewrite IH, Hfresh.
    + rewrite lookup_insert_ne by done.
      destruct (defined v); [rewrite lookup_insert_ne by done|]; apply IH.
Qed.

(** X24. [pickDefined] keeps exactly the entries whose value is neither
    [undefined] nor [null], with their values: for an object without the
    key [__proto__], the result holds at each key the value of the object
    when that is defined and nothing otherwise, it never holds [null],
    and picking again from the result changes nothing. *)
Theorem pickDefined_lookup (obj : gmap string JsValue) (key : string) :
  obj !! "__proto__" = None ->
  pickDefined obj !! key = obj !! key ≫= defined
  /\ pickDefined obj !! key <> Some JNull
  /\ pickDefined (Some <$> pickDefined obj) = pickDefined obj.
Proof.
  intros _. rewrite pickDefined_spec. split_and!; [done| |].
  - destruct (obj !! key) as [[[]|]|]; done.
  - apply map_eq. intros k. rewrite !pickDefined_spec, lookup_fmap, pickDefined_spec.
    destruct (obj !! k) as [[[]|]|]; done.
Qed.

(** X25. The request of [trackCustomer]: the search parameter [tracker]
    is present exactly when the profile of the payload is truthy, and
    then is the profile; the headers are [Referer], [User-Agent] and
    [X-Forwarded-For], each sent only when the page url, the user agent
    or the IP address it is taken from is neither [undefined] nor
    [null], and no other header and no [null] header is sent. *)
Theorem trackCustomer_request (payload settings : JSONObject) :
  let request :=
    trackCustomer base64Encode encodeURIComponent JSON_stringify trackUrl
      payload settings in
  searchParams request !! "tracker"
  = (if truthy (payload !! "profile") then Some (payload !! "profile") else None)
  /\ exists sent,
      headers request = Some sent
      /\ sent !! "Referer" = defined (payload !! "pageUrl")
      /\ sent !! "User-Agent" = defined (payload !! "userAgent")
      /\ sent !! "X-Forwarded-For" = defined (payload !! "ipAddress")
      /\ (forall name value, sent !! name = Some value ->
            value <> JNull
            /\ name ∈ ["Referer"; "User-Agent"; "X-Forwarded-For"]).
Proof.
  intros request. subst request. unfold trackCustomer. cbn [searchParams headers].
  split.
  - unfold withTracker. destruct (truthy (payload !! "profile")).
    + by rewrite lookup_insert_eq.
    + by rewrite !lookup_insert_ne, lookup_singleton_ne.
  - eexists. split; [reflexivity|].
    split_and!.
    + by rewrite pickDefined_spec, lookup_insert_eq.
    + rewrite pickDefined_spec, lookup_insert_ne by done. by rewrite lookup_insert_eq.
    + rewrite pickDefined_spec, !lookup_insert_ne by done.
      by rewrite lookup_singleton_eq.
    + intros name value. rewrite pickDefined_spec.
      destruct (decide (name = "Referer")) as [->|H1].
      { rewrite lookup_insert_eq. simpl. intros Hv. split; [|set_solver].
        intros ->. by destruct (payload !! "pageUrl") as [[]|]. }
      rewrite lookup_insert_ne by done.
      destruct (decide (name = "User-Agent")) as [->|H2].
      { rewrite lookup_insert_eq. simpl. intros Hv. split; [|set_solver].
        intros ->. by destruct (payload !! "userAgent") as [[]|]. }
      rewrite lookup_insert_ne by done.
      destruct (decide (name = "X-Forwarded-For")) as [->|H3].
      { rewrite lookup_singleton_eq. simpl. intros Hv. split; [|set_solver].
        intros ->. by destruct (payload !! "ipAddress") as [[]|]. }
      by rewrite lookup_singleton_ne.
Qed.

(** X26. [trackPurchase] sends no request exactly when the payload member
    named by [amountSource] is falsy, [total] and [subtotal] are falsy,
    and [revenue] is [undefined]; a [revenue] that is [null], zero or
    empty still sends the purchase. *)
Theorem trackPurchase_sends_nothing (payload settings : JSONObject) :
  trackPurchase base64Encode encodeURIComponent JSON_stringify trackUrl
    payload settings = None
  <-> memberTruthy (payloadMember payload (payload !! "amountSource")) = false
      /\ truthy (payload !! "total") = false
      /\ truthy (payload !! "subtotal") = false
      /\ payload !! "revenue" = None.
Proof.
  unfold trackPurchase, purchaseAmount.
  destruct (payloadMember payload (payload !! "amountSource")) as [[chosen|]|] eqn:Hchosen;
    cbn [memberTruthy].
  - destruct (truthy (Some chosen)) eqn:Hc.
    { split; [done|by intros []]. }
    destruct (truthy (payload !! "total")) eqn:Ht.
    { destruct (payload !! "total"); [|done]. split; [done|by intros (_ & ? & _)]. }
    destruct (truthy (payload !! "subtotal")) eqn:Hs.
    { destruct (payload !! "subtotal"); [|done]. split; [done|by intros (_ & _ & ? & _)]. }
    destruct (payload !! "revenue"); [split; [done|by intros (_ & _ & _ & ?)]|done].
  - cbn [truthy].
    destruct (truthy (payload !! "total")) eqn:Ht.
    { destruct (payload !! "total"); [|done]. split; [done|by intros (_ & ? & _)]. }
    destruct (truthy (payload !! "subtotal")) eqn:Hs.
    { destruct (payload !! "subtotal"); [|done]. split; [done|by intros (_ & _ & ? & _)]. }
    destruct (payload !! "revenue"); [split; [done|by intros (_ & _ & _ & ?)]|done].
  - split; [done|by intros []].
Qed.

End FriendbuyFacts.

(** ** The added properties at the samples *)

Section SampleFacts.
Context `{JsNumberOps}.

Lemma identify_unmatched (slug : string) :
  matches validate (Examples.subscriptionTo slug) Samples.identifyEvent = false.
Proof. vm_compute; reflexivity. Qed.

Lemma track_matched_nope :
  matches validate (Examples.subscriptionTo "nope") Examples.trackEvent = true
  /\ Destination.field (Examples.subscriptionTo "nope") "partnerAction"
     = Some (JStr "nope")
  /\ Destination.actions Examples.shop !! "nope" = None.
Proof. split_and?; vm_compute; reflexivity. Qed.

Lemma wrongKey_noSubscriptions : noSubscriptions Examples.wrongKey = true.
Proof. vm_compute; reflexivity. Qed.

Lemma textSubscriptions_lookups :
  truthy (Samples.textSubscriptions !! "subscription") = false
  /\ Samples.textSubscriptions !! "subscriptions" = Some (JStr "[oops").
Proof. split_and?; vm_compute; reflexivity. Qed.

Lemma twoSubscriptions_reports :
  length (Destination.reports
            (Destination.onEvent validate Examples.noJson Examples.shop
               Examples.trackEvent Examples.twoSubscriptions true)) = 2.
Proof. vm_compute; reflexivity. Qed.

Lemma regional_request :
  Destination.validateSettings Samples.regional Examples.wrongKey = Return tt
  /\ Destination.authentication Samples.regional ≫= Authentication.testAuthentication
     = Authentication.testAuthentication Examples.apiKeyScheme
  /\ Destination.testRequest Samples.regional Examples.wrongKey
     = Throw Samples.noRegion.
Proof. split_and?; vm_compute; reflexivity. Qed.

Lemma openDefinition_actions :
  DestinationDefinition.actions Samples.openDefinition !! "__proto__" = None
  /\ DestinationDefinition.actions Samples.openDefinition !! "track"
     = Some Examples.trackAction.
Proof. split_and?; vm_compute; reflexivity. Qed.

Lemma pageHeaders_lookups :
  Samples.pageHeaders !! "__proto__" = None
  /\ Samples.pageHeaders !! "User-Agent" = Some None
  /\ Samples.pageHeaders !! "Referer" = Some (Some (JStr "https://shop.example/")).
Proof. split_and?; vm_compute; reflexivity. Qed.

Lemma emptyGroups_scope :
  (lexed ← lex "()()"; tokens ← normalize lexed; parseScope tokens)
  = Return ([None; None], "and")
  /\ parseFql "()()" = Valid (GroupCondition "and" [None; None]).
Proof. split_and?; vm_compute; reflexivity. Qed.

Lemma emptyGroup_scope :
  (lexed ← lex "()"; tokens ← normalize lexed; parseScope tokens)
  = Return ([None], "and").
Proof. split_and?; vm_compute; reflexivity. Qed.

Lemma trackSource_scope :
  (lexed ← lex ("type = " +:+ q "track"); normalize lexed)
  = Return [ identToken "type";
             {| type := TokenType.Operator; value := "=" |};
             {| type := TokenType.String; value := q "track" |};
             eosToken ]
  /\ parseScope [ identToken "type";
                  {| type := TokenType.Operator; value := "=" |};
                  {| type := TokenType.String; value := q "track" |};
                  eosToken ]
     = Return ([Some (EventTypeCondition "=" "track")], "and").
Proof. split_and?; vm_compute; reflexivity. Qed.

End SampleFacts.

#[local] Existing Instance IntegerNumbers.ops.

(** C1, as stated, fails: of two subscriptions that both match, the first
    names an unknown action and the second completes at tick 5 with a
    result; [onEvent] rejects at tick 0 with the failure of the first,
    before the second has settled, and returns no result of it. *)
Lemma onEvent_rejection_drops_sibling_results :
  Destination.promise
    (Destination.onSubscription validate Examples.shop
       (Examples.subscriptionTo "track") Examples.trackEvent
       (Destination.getDestinationSettings Examples.twoSubscriptions) true)
  = {| settledAt := 5; outcome := Return Examples.sent |}
  /\ Destination.promise
       (Destination.onEvent validate Examples.noJson Examples.shop
          Examples.trackEvent Examples.twoSubscriptions true)
     = {| settledAt := 0;
          outcome := Throw (Destination.BadRequest
                              (q "nope" +:+ " is not a valid action")) |}.
Proof.
  split; [exact twoSubscriptions_sibling|exact twoSubscriptions_onEvent].
Qed.

Lemma onEvent_all_or_reject_witness :
  Destination.getSubscriptions Examples.noJson Examples.twoSubscriptions
  = Return (JArr [Examples.subscriptionTo "nope"; Examples.subscriptionTo "track"])
  /\ Destination.reports
       (Destination.onEvent validate Examples.noJson Examples.shop
          Examples.trackEvent Examples.twoSubscriptions true)
     = concat (map Destination.reports
                 (map (fun subscription =>
                         Destination.onSubscription validate Examples.shop
                           subscription Examples.trackEvent
                           (Destination.getDestinationSettings Examples.twoSubscriptions)
                           true)
                      [Examples.subscriptionTo "nope"; Examples.subscriptionTo "track"])).
Proof.
  split; [exact twoSubscriptions_elements|].
  exact (proj1 (onEvent_all_or_reject validate Examples.noJson Examples.shop
                  Examples.trackEvent Examples.twoSubscriptions true _
                  twoSubscriptions_elements)).
Defined.

(** C2, as stated, fails: for settings whose [apiKey] is a number the
    validation step fails; [testAuthentication] throws that
    [AggregateAjvError] itself, not the generic error, and the reply of
    the handler carries the message of the offending field. *)
Lemma testAuthentication_keeps_validation_failure :
  Destination.testAuthentication Examples.shop Examples.numericKey
  = Throw Examples.apiKeyNotAString
  /\ Examples.apiKeyNotAString <> Error "Credentials are invalid"
  /\ Server.testCredentials Examples.shop Examples.numericKey
     = {| Server.status := 200; Server.ok := false;
          Server.error := Some "Credentials are invalid";
          Server.fields :=
            Some {[ "apiKey" := "API Key should be a string but it was a number." ]} |}.
Proof.
  split_and!; [|discriminate|exact numericKey_reply].
  unfold Destination.testAuthentication. by rewrite numericKey_validation.
Qed.

Lemma testAuthentication_failures_witness :
  (Destination.testAuthentication Examples.shop Examples.wrongKey
   = Throw (Error "Credentials are invalid")
   /\ Server.testCredentials Examples.shop Examples.wrongKey
      = {| Server.status := 200; Server.ok := false;
           Server.error := Some "Credentials are invalid";
           Server.fields := None |})
  /\ Destination.testAuthentication Examples.shop Examples.numericKey
     = Throw Examples.apiKeyNotAString.
Proof.
  destruct wrongKey_request as (Hvalid & Hscheme & Hrequest).
  split.
  - exact (proj1 (testAuthentication_failures Examples.shop Examples.wrongKey)
             _ _ Examples.unauthorized Hvalid Hscheme Hrequest eq_refl).
  - exact (proj1 (proj2 (testAuthentication_failures Examples.shop Examples.numericKey)
                    Examples.apiKeyNotAString numericKey_validation)).
Defined.

(** C4, as stated, fails: the scope of the source [(type=QtrackQ)], with Q
    the double quote, yields exactly one condition, and [parseFql] returns
    a group with that condition as its only child. *)
Lemma parseFql_wraps_single_condition :
  (lexed ← lex ("(type=" +:+ q "track" +:+ ")");
   tokens ← normalize lexed; parseScope tokens)
  = Return ([Some (EventTypeCondition "=" "track")], "and")
  /\ parseFql ("(type=" +:+ q "track" +:+ ")")
     = Valid (GroupCondition "and" [Some (EventTypeCondition "=" "track")]).
Proof.
  split; [|exact singleScope_parseFql].
  pose proof singleScope_tokens as Htokens.
  destruct (lex ("(type=" +:+ q "track" +:+ ")")) as [lexed|e]; [|done].
  simpl in Htokens |- *. rewrite Htokens. exact singleScope_nodes.
Qed.

Lemma parse_single_condition_unwrapped_witness :
  parseScope [ identToken "type";
               {| type := TokenType.Operator; value := "=" |};
               {| type := TokenType.String; value := q "track" |};
               eosToken ]
  = Return ([Some (EventTypeCondition "=" "track")], "and")
  /\ parse [ identToken "type";
             {| type := TokenType.Operator; value := "=" |};
             {| type := TokenType.String; value := q "track" |};
             eosToken ]
     = Return (Some (EventTypeCondition "=" "track"))
  /\ parse [ parenLeft; parenRight;
             identToken "type";
             {| type := TokenType.Operator; value := "=" |};
             {| type := TokenType.String; value := q "track" |};
             eosToken ]
     = Return (Some (GroupCondition "and"
                       [None; Some (EventTypeCondition "=" "track")])).
Proof.
  destruct trackSource_scope as [Htokens Hscope].
  destruct (parse_single_condition_unwrapped ("type = " +:+ q "track") _
              [Some (EventTypeCondition "=" "track")] "and" Htokens Hscope)
    as (Hparse & _ & _ & Hwrapped).
  split; [exact Hscope|]. split; [exact Hparse|exact Hwrapped].
Defined.

Lemma onSubscription_state_witness :
  Examples.subscriptionTo "track" <> JNull
  /\ exists stats,
       Destination.reports
         (Destination.onSubscription validate Examples.shop
            (Examples.subscriptionTo "track") Examples.trackEvent ∅ true)
       = [stats]
       /\ Destination.state stats = "done".
Proof.
  assert (Hnull : Examples.subscriptionTo "track" <> JNull) by discriminate.
  split; [exact Hnull|].
  destruct (onSubscription_state validate Examples.shop
              (Examples.subscriptionTo "track") Examples.trackEvent ∅ Hnull)
    as (stats & Hreports & _ & Hdone & _).
  exists stats. split; [exact Hreports|].
  apply Hdone. exact trackSubscription_done.
Defined.

Lemma parseFql_no_condition_is_error_witness :
  (lexed ← lex ""; tokens ← normalize lexed; parseScope tokens)
  = Return ([], "and")
  /\ parseFql "" = ErrorCondition (TypeError_undefined "type")
  /\ parseFql "and or" = ErrorCondition (TypeError_undefined "type")
  /\ parseFql "()" = ErrorCondition (TypeError_undefined "type").
Proof.
  split; [exact emptySource_nodes|]. split_and!.
  - exact (proj2 (proj1 (parseFql_no_condition_is_error "" [] "and"
                           emptySource_nodes)) (or_introl eq_refl)).
  - exact (proj2 (proj1 (parseFql_no_condition_is_error "and or" [] "or"
                           conditionalsOnly_nodes)) (or_introl eq_refl)).
  - exact (proj2 (proj1 (parseFql_no_condition_is_error "()" [None] "and"
                           emptyGroup_scope)) (or_intror eq_refl)).
Defined.

(** C10, as stated, fails: the source of two empty pairs of parentheses
    holds no condition, its scope yields two [undefined] nodes, and
    [parseFql] returns the group of the two, not an error. *)
Lemma parseFql_empty_groups_are_valid :
  (lexed ← lex "()()"; tokens ← normalize lexed; parseScope tokens)
  = Return ([None; None], "and")
  /\ parseFql "()()" = Valid (GroupCondition "and" [None; None]).
Proof. exact emptyGroups_scope. Qed.

(** ** The added properties at concrete inputs *)

Lemma parse_group_of_flat_pieces_witness :
  scope (parenLeft
         :: [ identToken "type";
              {| type := TokenType.Operator; value := "=" |};
              {| type := TokenType.String; value := q "track" |};
              {| type := TokenType.Conditional; value := "or" |};
              identToken "event";
              {| type := TokenType.Operator; value := "=" |};
              {| type := TokenType.String; value := q "Order Completed" |} ]
         ++ parenRight :: [eosToken]) [] "and"
  = scope [eosToken]
      [Some (GroupCondition "or" [Some (EventTypeCondition "=" "track");
                                  Some (EventCondition "=" "Order Completed")])]
      "and".
Proof.
  exact (parse_group_of_flat_pieces
           [ Compare TypeAttribute {| type := TokenType.Operator; value := "=" |}
               {| type := TokenType.String; value := q "track" |};
             Word "or";
             Compare EventAttribute {| type := TokenType.Operator; value := "=" |}
               {| type := TokenType.String; value := q "Order Completed" |} ]
           [eosToken] [] "and" eq_refl).
Defined.

Lemma parse_group_opening_a_group_witness :
  noCloser [identToken "type"] = true
  /\ parse [ parenLeft; parenLeft; identToken "type"; parenRight; parenRight;
             eosToken ]
     = Throw (TypeError_undefined "type").
Proof.
  split; [reflexivity|].
  exact (parse_group_opening_a_group [identToken "type"] [parenRight; eosToken]
           eq_refl).
Defined.

Lemma parse_match_without_trailing_star_witness :
  Str.endsWith "*" "Order" = false
  /\ parse (matchCall false "event" "Order")
     = Return (Some (EventCondition "ends_with" "rder")).
Proof.
  split; [reflexivity|].
  exact (parse_match_without_trailing_star false "Order" eq_refl).
Defined.

Lemma parse_call_on_other_field_witness :
  parse [ identToken "contains"; parenLeft; identToken "context.ip";
          {| type := TokenType.Comma; value := "," |};
          {| type := TokenType.String; value := q "10." |};
          parenRight; eosToken ]
  = parse [eosToken].
Proof.
  exact (parse_call_on_other_field "contains" parenLeft (identToken "context.ip")
           {| type := TokenType.Comma; value := "," |}
           {| type := TokenType.String; value := q "10." |}
           parenRight [eosToken] eq_refl eq_refl eq_refl).
Defined.

Lemma parse_prototype_member_witness :
  Str.includes objectPrototypeMembers (Str.firstSegment "toString.length") = true
  /\ parse [ identToken "toString.length";
             {| type := TokenType.Operator; value := "=" |};
             {| type := TokenType.Number; value := "1" |};
             eosToken ]
     = parse [eosToken].
Proof.
  split; [reflexivity|].
  exact (proj1 (parse_prototype_member "toString.length"
                  {| type := TokenType.Operator; value := "=" |}
                  {| type := TokenType.Number; value := "1" |}
                  [eosToken] eq_refl)).
Defined.

Lemma normalize_without_dots_witness :
  normalize [ dotToken;
              identToken "type";
              {| type := TokenType.Operator; value := "=" |};
              {| type := TokenType.String; value := q "track" |};
              eosToken ]
  = Return [ dotToken;
             identToken "type";
             {| type := TokenType.Operator; value := "=" |};
             {| type := TokenType.String; value := q "track" |};
             eosToken ].
Proof.
  exact (normalize_without_dots
           [ dotToken;
             identToken "type";
             {| type := TokenType.Operator; value := "=" |};
             {| type := TokenType.String; value := q "track" |};
             eosToken ] eq_refl eq_refl).
Defined.

Lemma onSubscription_report_witness :
  Examples.subscriptionTo "track" <> JNull
  /\ Destination.reports
       (Destination.onSubscription validate Examples.shop
          (Examples.subscriptionTo "track") Examples.trackEvent ∅ false)
     = [].
Proof.
  assert (Hnull : Examples.subscriptionTo "track" <> JNull) by discriminate.
  split; [exact Hnull|].
  exact (proj1 (proj2 (onSubscription_report validate Examples.shop
                         (Examples.subscriptionTo "track") Examples.trackEvent ∅
                         Hnull))).
Defined.

Lemma onSubscription_unmatched_witness :
  matches validate (Examples.subscriptionTo "track") Samples.identifyEvent = false
  /\ Destination.promise
       (Destination.onSubscription validate Examples.shop
          (Examples.subscriptionTo "track") Samples.identifyEvent ∅ true)
     = {| settledAt := 0;
          outcome :=
            Return (if isString (Destination.field (Examples.subscriptionTo "track")
                                   "subscribe")
                    then Destination.notSubscribed
                    else Destination.invalidSubscription) |}.
Proof.
  assert (Hnull : Examples.subscriptionTo "track" <> JNull) by discriminate.
  split; [exact (identify_unmatched "track")|].
  exact (proj1 (onSubscription_unmatched validate Examples.shop
                  (Examples.subscriptionTo "track") Samples.identifyEvent ∅ true
                  Hnull (identify_unmatched "track"))).
Defined.

Lemma onSubscription_unknown_action_witness :
  Destination.promise
    (Destination.onSubscription validate Examples.shop
       (Examples.subscriptionTo "nope") Examples.trackEvent ∅ true)
  = {| settledAt := 0;
       outcome := Throw (Destination.BadRequest
                           (q "nope" +:+ " is not a valid action")) |}.
Proof.
  destruct track_matched_nope as (Hmatch & Hslug & Hactions).
  exact (proj1 (onSubscription_unknown_action validate Examples.shop
                  (Examples.subscriptionTo "nope") Examples.trackEvent ∅ "nope"
                  Hmatch Hslug Hactions eq_refl)).
Defined.

Lemma onEvent_without_subscriptions_witness :
  noSubscriptions Examples.wrongKey = true
  /\ Destination.onEvent validate Examples.noJson Examples.shop
       Examples.trackEvent Examples.wrongKey true
     = {| Destination.promise := {| settledAt := 0; outcome := Return [] |};
          Destination.reports := [] |}.
Proof.
  split; [exact wrongKey_noSubscriptions|].
  exact (onEvent_without_subscriptions validate Examples.noJson Examples.shop
           Examples.trackEvent Examples.wrongKey true wrongKey_noSubscriptions).
Defined.

Lemma onEvent_unparsable_subscriptions_witness :
  Destination.onEvent validate Examples.noJson Examples.shop
    Examples.trackEvent Samples.textSubscriptions true
  = {| Destination.promise :=
         {| settledAt := 0;
            outcome := Throw {| JsError.name := "SyntaxError";
                                JsError.message := "Unexpected token in JSON";
                                JsError.items := [] |} |};
       Destination.reports := [] |}.
Proof.
  exact (onEvent_unparsable_subscriptions validate Examples.noJson Examples.shop
           Examples.trackEvent Samples.textSubscriptions true "[oops"
           (proj1 textSubscriptions_lookups) (proj2 textSubscriptions_lookups)).
Defined.

Lemma onEvent_reports_forwarded_settings_witness :
  length (Destination.reports
            (Destination.onEvent validate Examples.noJson Examples.shop
               Examples.trackEvent Examples.twoSubscriptions true)) = 2
  /\ Forall (fun stats =>
               Destination.settings (Destination.input stats) !! "subscriptions"
               = None)
       (Destination.reports
          (Destination.onEvent validate Examples.noJson Examples.shop
             Examples.trackEvent Examples.twoSubscriptions true)).
Proof.
  split; [exact twoSubscriptions_reports|].
  apply Forall_forall. intros stats Hin.
  exact (proj1 (proj2 (proj2 (proj2
           (onEvent_reports_forwarded_settings validate Examples.noJson
              Examples.shop Examples.trackEvent Examples.twoSubscriptions true
              stats Hin))))).
Defined.

Lemma onEvent_nothing_matches_witness :
  Destination.promise
    (Destination.onEvent validate Examples.noJson Examples.shop
       Samples.identifyEvent Examples.twoSubscriptions true)
  = {| settledAt := 0;
       outcome :=
         Return (concat (map sentinel [ Examples.subscriptionTo "nope";
                                        Examples.subscriptionTo "track" ])) |}.
Proof.
  apply (onEvent_nothing_matches validate Examples.noJson Examples.shop
           Samples.identifyEvent Examples.twoSubscriptions true _
           twoSubscriptions_elements).
  intros subscription Hin.
  apply elem_of_cons in Hin as [->|Hin];
    [split; [discriminate|exact (identify_unmatched "nope")]|].
  apply elem_of_cons in Hin as [->|Hin];
    [split; [discriminate|exact (identify_unmatched "track")]|].
  by apply elem_of_nil in Hin.
Defined.

Lemma testAuthentication_extension_failure_witness :
  Destination.testRequest Samples.regional Examples.wrongKey
  = Throw Samples.noRegion
  /\ Destination.testAuthentication Samples.regional Examples.wrongKey
     = Throw Samples.noRegion.
Proof.
  destruct regional_request as (Hvalid & Hscheme & Hrequest).
  split; [exact Hrequest|].
  exact (proj1 (testAuthentication_extension_failure Samples.regional
                  Examples.wrongKey _ Samples.noRegion Hvalid Hscheme Hrequest)).
Defined.

Lemma new_actions_witness :
  Destination.executeAction Samples.openDestination (Some (JStr "track"))
    Samples.trackInput
  = Return {| settledAt := 5; outcome := Return Examples.sent |}.
Proof.
  unfold Samples.openDestination.
  rewrite (new_actions Action.t JSONObject Samples.asDefined Samples.schemaOf
             Samples.acceptAll Samples.openDefinition "track" Samples.trackInput
             (proj1 openDefinition_actions) eq_refl).
  by rewrite (proj2 openDefinition_actions).
Defined.

Lemma new_without_authentication_witness :
  Server.testCredentials Samples.openDestination Examples.wrongKey
  = {| Server.status := 200; Server.ok := true;
       Server.error := None; Server.fields := None |}.
Proof.
  exact (proj2 (new_without_authentication Action.t JSONObject Samples.asDefined
                  Samples.schemaOf Samples.acceptAll Samples.openDefinition
                  Examples.wrongKey eq_refl)).
Defined.

Lemma pickDefined_lookup_witness :
  Samples.pageHeaders !! "__proto__" = None
  /\ Friendbuy.pickDefined Samples.pageHeaders !! "User-Agent" = None
  /\ Friendbuy.pickDefined Samples.pageHeaders !! "Referer"
     = Some (JStr "https://shop.example/").
Proof.
  destruct pageHeaders_lookups as (Hproto & Hagent & Hreferer).
  split; [exact Hproto|]. split.
  - rewrite (proj1 (pickDefined_lookup Samples.pageHeaders "User-Agent"
                      Hproto)).
    by rewrite Hagent.
  - rewrite (proj1 (pickDefined_lookup Samples.pageHeaders "Referer"
                      Hproto)).
    by rewrite Hreferer.
Defined.
